(** * Multi-band MelGAN: prototype filter, PQMF filterbank and generator shapes

    A shallow embedding of [tensorflow_tts/models/mb_melgan.py].

    Conventions of the embedding.
    - Python integers are [Z]; [//] is [Z.div] and [%] is [Z.modulo]
      (both round towards minus infinity, as in Python).
    - Floating-point numbers are modelled by [npfloat]: a real number, or
      one of the exceptional values of IEEE arithmetic (infinities, NaN).
      The exceptional values are produced as numpy produces them (0/0
      and inf/inf are NaN, x/0 is an infinity), and so is the overflow of
      [scipy.special.i0], the one operation of the file whose result can
      leave the range of float64. Rounding and signed zeros are not
      modelled, and [astype(np.float32)] is therefore the identity.
    - Raised exceptions are values of [exn], carried by the [result] monad.
    - numpy arrays of rank one are lists; arrays of rank two and three are
      a shape together with an indexing function, which is how
      [np.zeros], [np.expand_dims] and [np.transpose] act on them.
    - TensorFlow tensors flowing through [analysis], [synthesis] and the
      generator are followed at the level of their shapes. *)

From Stdlib Require Import String.
From Stdlib Require Import Reals Factorial ZArith List Bool Lra Lia.
Import ListNotations.

Open Scope R_scope.

(** ** Exceptions and the result monad *)

Inductive exn : Type :=
| AssertionError (msg : option string)   (* a failed [assert] and its message *)
| IndexError
| ValueError
| InvalidArgumentError.                  (* tf.errors.InvalidArgumentError *)

Inductive result (A : Type) : Type :=
| Ok (a : A)
| Raise (e : exn).

Arguments Ok {A} a.
Arguments Raise {A} e.

Definition bind {A B : Type} (m : result A) (k : A -> result B) : result B :=
  match m with
  | Ok a => k a
  | Raise e => Raise e
  end.

Notation "x <- m ;; k" := (bind m (fun x => k))
  (at level 61, m at next level, right associativity).

(** [assert cond, msg] *)
Definition py_assert (cond : bool) (msg : option string) : result unit :=
  if cond then Ok tt else Raise (AssertionError msg).

(** Comparison of two floats, as a boolean. *)
Definition Rlt_b (x y : R) : bool := if Rlt_dec x y then true else false.

(** ** numpy values and rank-one arrays *)

Inductive npfloat : Type :=
| Fin (r : R)
| Inf (negative : bool)
| NaN.

Definition is_finite (x : npfloat) : bool :=
  match x with Fin _ => true | _ => false end.

Definition Rneg_b (r : R) : bool := Rlt_b r 0.

(** IEEE division: 0/0 and inf/inf are NaN, x/0 is an infinity. *)
Definition npdiv (x y : npfloat) : npfloat :=
  match x, y with
  | NaN, _ | _, NaN => NaN
  | Fin a, Fin b =>
      if Req_dec_T b 0
      then (if Req_dec_T a 0 then NaN else Inf (Rneg_b a))
      else Fin (a / b)
  | Fin _, Inf _ => Fin 0
  | Inf s, Fin b => Inf (xorb s (Rneg_b b))
  | Inf _, Inf _ => NaN
  end.

(** IEEE multiplication: 0 * inf is NaN. *)
Definition npmul (x y : npfloat) : npfloat :=
  match x, y with
  | NaN, _ | _, NaN => NaN
  | Fin a, Fin b => Fin (a * b)
  | Fin a, Inf s | Inf s, Fin a =>
      if Req_dec_T a 0 then NaN else Inf (xorb s (Rneg_b a))
  | Inf s, Inf t => Inf (xorb s t)
  end.

(** [np.arange(n)] and Python's [range(n)]: 0, 1, ..., n-1 (empty when n <= 0). *)
Definition arange (n : Z) : list Z := map Z.of_nat (seq 0 (Z.to_nat n)).

(** [np.ones(n)] for n >= 0. *)
Definition ones (n : Z) : list npfloat := repeat (Fin 1) (Z.to_nat n).

Fixpoint list_set {A : Type} (i : nat) (v : A) (l : list A) : list A :=
  match l with
  | [] => []
  | x :: l' => match i with
               | O => v :: l'
               | S i' => x :: list_set i' v l'
               end
  end.

(** [a[i] = v] on a rank-one array: negative indices count from the end,
    an index outside [-len, len) raises IndexError. *)
Definition setitem {A : Type} (a : list A) (i : Z) (v : A) : result (list A) :=
  let len := Z.of_nat (length a) in
  if ((0 <=? i) && (i <? len))%Z then Ok (list_set (Z.to_nat i) v a)
  else if ((- len <=? i) && (i <? 0))%Z then Ok (list_set (Z.to_nat (i + len)) v a)
  else Raise IndexError.

(** Elementwise product [a * b] of two rank-one arrays of equal length. *)
Fixpoint mul_elementwise (a b : list npfloat) : list npfloat :=
  match a, b with
  | x :: a', y :: b' => npmul x y :: mul_elementwise a' b'
  | _, _ => []
  end.

(** ** scipy: the Kaiser window

    [scipy.signal.kaiser] and [scipy.special.i0] belong to scipy; they are
    modelled from scipy's definition of the window,
    [w(n) = i0(beta * sqrt(1 - ((n - alpha)/alpha)^2)) / i0(beta)] with
    [alpha = (M-1)/2], where [i0] evaluates the modified Bessel function
    of the first kind of order zero, [I0(x) = sum_k (x^2/4)^k / (k!)^2]. *)

Definition i0_coef (n : nat) : R := / (INR (fact n) * INR (fact n)).

Lemma i0_coef_pos n : 0 < i0_coef n.
Proof.
  unfold i0_coef. apply Rinv_0_lt_compat.
  pose proof (INR_fact_lt_0 n). nra.
Qed.

Lemma i0_coef_neq_0 n : i0_coef n <> 0.
Proof. pose proof (i0_coef_pos n). lra. Qed.

Lemma i0_coef_ratio n : i0_coef (S n) / i0_coef n = / (INR (S n) * INR (S n)).
Proof.
  unfold i0_coef. rewrite fact_simpl, mult_INR.
  pose proof (INR_fact_lt_0 n) as Hf.
  assert (Hs : 0 < INR (S n)) by (apply lt_0_INR; lia).
  field. split; lra.
Qed.

(** d'Alembert's ratio test for the series of [I0]. *)
Lemma Alembert_i0 : Un_cv (fun n => Rabs (i0_coef (S n) / i0_coef n)) 0.
Proof.
  intros eps Heps.
  destruct (archimed (/ eps)) as [Hup _].
  assert (Hpos : (0 <= up (/ eps))%Z).
  { apply le_IZR. pose proof (Rinv_0_lt_compat eps Heps). lra. }
  destruct (IZN _ Hpos) as [N HN].
  exists N. intros n Hn.
  rewrite i0_coef_ratio. unfold Rdist. rewrite Rminus_0_r, Rabs_Rabsolu.
  assert (Hs : / eps < INR (S n)).
  { rewrite HN, <- INR_IZR_INZ in Hup.
    apply Rlt_le_trans with (INR N); [exact Hup|]. apply le_INR. lia. }
  assert (H1 : 1 <= INR (S n)).
  { replace 1 with (INR 1) by reflexivity. apply le_INR. lia. }
  assert (Hie : 0 < / eps) by (apply Rinv_0_lt_compat; exact Heps).
  rewrite Rabs_pos_eq.
  2:{ left. apply Rinv_0_lt_compat. apply Rmult_lt_0_compat; lra. }
  rewrite <- (Rinv_inv eps).
  set (s := INR (S n)) in *.
  apply Rinv_lt_contravar;
    [apply Rmult_lt_0_compat; [lra|apply Rmult_lt_0_compat; lra]|].
  nra.
Qed.

Lemma exist_i0 (y : R) : { l : R | Pser i0_coef y l }.
Proof. exact (Alembert_C3 i0_coef y i0_coef_neq_0 Alembert_i0). Defined.

(** The modified Bessel function [I0], as a function on the reals. *)
Definition bessel_i0 (x : R) : R := proj1_sig (exist_i0 (x * x / 4)).

(** The largest finite float64, [(2 - 2^-52) * 2^1023]. *)
Definition float64_max : R := (2 - / 2 ^ 52) * 2 ^ 1023.

(** [scipy.special.i0] (the Cephes routine): it takes the absolute value
    of [x] and returns [exp(x)] times a Chebyshev sum, divided by
    [sqrt(x)] beyond 8. The factor [exp(|x|)] is [inf] once it exceeds the
    range of float64, that is for [|x|] above about 709.78, and the result
    is then [inf]; otherwise the result is the value of [I0]. *)
Definition i0 (x : R) : npfloat :=
  if Rle_dec (exp (Rabs x)) float64_max then Fin (bessel_i0 x) else Inf false.

(** [scipy.signal.kaiser(M, beta)] (symmetric window). *)
Definition kaiser (M : Z) (beta : R) : result (list npfloat) :=
  if (M <? 0)%Z then Raise ValueError
  else if (M <=? 1)%Z then Ok (ones M)
  else
    let alpha := (IZR M - 1) / 2 in
    Ok (map (fun n =>
               npdiv (i0 (beta * sqrt (1 - ((IZR n - alpha) / alpha) ^ 2)))
                     (i0 beta))
            (arange M)).

(** ** The prototype filter *)

Definition design_prototype_filter (taps : Z) (cutoff_ratio beta : R)
  : result (list npfloat) :=
  (* check the arguments are valid *)
  _ <- py_assert (taps mod 2 =? 0)%Z
         (Some "The number of taps mush be even number."%string) ;;
  _ <- py_assert (Rlt_b 0 cutoff_ratio && Rlt_b cutoff_ratio 1)
         (Some "Cutoff ratio must be > 0.0 and < 1.0."%string) ;;
  (* make initial filter *)
  let omega_c := PI * cutoff_ratio in
  let h_i :=
    map (fun n => npdiv (Fin (sin (omega_c * (IZR n - 0.5 * IZR taps))))
                        (Fin (PI * (IZR n - 0.5 * IZR taps))))
        (arange (taps + 1)) in
  (* fix nan due to indeterminate form *)
  h_i <- setitem h_i (taps / 2)%Z (Fin (cos 0 * cutoff_ratio)) ;;
  (* apply kaiser window *)
  w <- kaiser (taps + 1) beta ;;
  Ok (mul_elementwise h_i w).

(** ** numpy arrays of rank two and three *)

Record ndarray2 : Type := { shape2 : nat * nat; get2 : nat -> nat -> npfloat }.
Record ndarray3 : Type :=
  { shape3 : nat * nat * nat; get3 : nat -> nat -> nat -> npfloat }.

(** An index [i] into an axis of length [len], with Python's negative indices. *)
Definition norm_index (i : Z) (len : nat) : result nat :=
  if ((0 <=? i) && (i <? Z.of_nat len))%Z then Ok (Z.to_nat i)
  else if ((- Z.of_nat len <=? i) && (i <? 0))%Z then Ok (Z.to_nat (i + Z.of_nat len))
  else Raise IndexError.

(** [np.zeros((d0, d1))]: negative dimensions are refused. *)
Definition np_zeros2 (d0 d1 : Z) : result ndarray2 :=
  if ((d0 <? 0) || (d1 <? 0))%Z then Raise ValueError
  else Ok {| shape2 := (Z.to_nat d0, Z.to_nat d1); get2 := fun _ _ => Fin 0 |}.

(** [np.zeros((d0, d1, d2))] *)
Definition np_zeros3 (d0 d1 d2 : Z) : result ndarray3 :=
  if ((d0 <? 0) || (d1 <? 0) || (d2 <? 0))%Z then Raise ValueError
  else Ok {| shape3 := (Z.to_nat d0, Z.to_nat d1, Z.to_nat d2);
             get3 := fun _ _ _ => Fin 0 |}.

(** [a[k] = row]: the row must have the length of the second axis. *)
Definition set_row (a : ndarray2) (k : Z) (row : list npfloat) : result ndarray2 :=
  k' <- norm_index k (fst (shape2 a)) ;;
  if (length row =? snd (shape2 a))%nat
  then Ok {| shape2 := shape2 a;
             get2 := fun i j => if (i =? k')%nat then nth j row NaN else get2 a i j |}
  else Raise ValueError.

(** [a[i, j, k] = v] *)
Definition set_entry (a : ndarray3) (i j k : Z) (v : npfloat) : result ndarray3 :=
  let '(d0, d1, d2) := shape3 a in
  i' <- norm_index i d0 ;;
  j' <- norm_index j d1 ;;
  k' <- norm_index k d2 ;;
  Ok {| shape3 := shape3 a;
        get3 := fun x y z =>
                  if ((x =? i') && (y =? j') && (z =? k'))%nat then v
                  else get3 a x y z |}.

(** [np.expand_dims(a, 1)]: (d0, d1) becomes (d0, 1, d1). *)
Definition expand_dims_1 (a : ndarray2) : ndarray3 :=
  let '(d0, d1) := shape2 a in
  {| shape3 := (d0, 1%nat, d1); get3 := fun i _ k => get2 a i k |}.

(** [np.expand_dims(a, 0)]: (d0, d1) becomes (1, d0, d1). *)
Definition expand_dims_0 (a : ndarray2) : ndarray3 :=
  let '(d0, d1) := shape2 a in
  {| shape3 := (1%nat, d0, d1); get3 := fun _ j k => get2 a j k |}.

(** [np.transpose(a, (2, 1, 0))] *)
Definition transpose_210 (a : ndarray3) : ndarray3 :=
  let '(d0, d1, d2) := shape3 a in
  {| shape3 := (d2, d1, d0); get3 := fun i j k => get3 a k j i |}.

(** [a.astype(np.float32)]: rounding is not modelled. *)
Definition astype_float32 (a : ndarray3) : ndarray3 := a.

(** A [for] loop whose body may raise. *)
Fixpoint for_each {A S : Type} (l : list A) (body : S -> A -> result S) (s : S)
  : result S :=
  match l with
  | [] => Ok s
  | x :: l' => s' <- body s x ;; for_each l' body s'
  end.

(** ** The configuration *)

Record Config : Type := {
  filters : Z;
  kernel_size : Z;
  upsample_scales : list Z;
  stacks : Z;
  stack_kernel_size : Z;
  use_bias : bool;
  nonlinear_activation : string;
  nonlinear_activation_params : list (string * R);
  is_weight_norm : bool;
  initializer_seed : Z;
  padding_type : string;
  out_channels : Z;
  use_final_nolinear_activation : bool;
  subbands : Z;
  taps : Z;
  cutoff_ratio : R;
  beta : R
}.

(** ** The PQMF filterbank *)

Record TFPQMF : Type := {
  pqmf_subbands : Z;
  pqmf_taps : Z;
  analysis_filter : ndarray3;
  synthesis_filter : ndarray3;
  updown_filter : ndarray3
}.

(** The phase of the cosine modulation of sub-band [k] at tap [n]:
    [(2*k+1) * (np.pi/(2*subbands)) * (n - taps/2)], to which the offset
    [(-1)**k * np.pi / 4] is added (analysis) or subtracted (synthesis). *)
Definition modulation_phase (subbands taps k n : Z) : R :=
  IZR (2 * k + 1) * (PI / IZR (2 * subbands)) * (IZR n - IZR taps / 2).

Definition phase_offset (k : Z) : R := IZR ((-1) ^ k) * PI / 4.

(** The row assigned to [h_analysis[k]]. *)
Definition analysis_row (h_proto : list npfloat) (subbands taps k : Z) : list npfloat :=
  mul_elementwise
    (map (npmul (Fin 2)) h_proto)
    (map (fun n => Fin (cos (modulation_phase subbands taps k n + phase_offset k)))
         (arange (taps + 1))).

(** The row assigned to [h_synthesis[k]]. *)
Definition synthesis_row (h_proto : list npfloat) (subbands taps k : Z) : list npfloat :=
  mul_elementwise
    (map (npmul (Fin 2)) h_proto)
    (map (fun n => Fin (cos (modulation_phase subbands taps k n - phase_offset k)))
         (arange (taps + 1))).

(** The local arrays [h_analysis] and [h_synthesis] after the loop over
    the sub-bands. *)
Definition filter_coefficients (h_proto : list npfloat) (subbands taps : Z)
  : result (ndarray2 * ndarray2) :=
  h_analysis <- np_zeros2 subbands (Z.of_nat (length h_proto)) ;;
  h_synthesis <- np_zeros2 subbands (Z.of_nat (length h_proto)) ;;
  for_each (arange subbands)
    (fun '(h_analysis, h_synthesis) k =>
       h_analysis <- set_row h_analysis k (analysis_row h_proto subbands taps k) ;;
       h_synthesis <- set_row h_synthesis k (synthesis_row h_proto subbands taps k) ;;
       Ok (h_analysis, h_synthesis))
    (h_analysis, h_synthesis).

(** The filter for downsampling and upsampling. *)
Definition make_updown_filter (subbands : Z) : result ndarray3 :=
  updown_filter <- np_zeros3 subbands subbands subbands ;;
  for_each (arange subbands)
    (fun updown_filter k => set_entry updown_filter 0 k k (Fin 1))
    updown_filter.

(** [TFPQMF.__init__] *)
Definition TFPQMF_init (config : Config) : result TFPQMF :=
  let subbands := subbands config in
  let taps := taps config in
  let cutoff_ratio := cutoff_ratio config in
  let beta := beta config in
  (* define filter coefficient *)
  h_proto <- design_prototype_filter taps cutoff_ratio beta ;;
  hh <- filter_coefficients h_proto subbands taps ;;
  let '(h_analysis, h_synthesis) := hh in
  let analysis_filter := expand_dims_1 h_analysis in
  let analysis_filter := transpose_210 analysis_filter in
  let synthesis_filter := expand_dims_0 h_synthesis in
  let synthesis_filter := transpose_210 synthesis_filter in
  (* filter for downsampling & upsampling *)
  updown_filter <- make_updown_filter subbands ;;
  Ok {| pqmf_subbands := subbands;
        pqmf_taps := taps;
        analysis_filter := astype_float32 analysis_filter;
        synthesis_filter := astype_float32 synthesis_filter;
        updown_filter := astype_float32 updown_filter |}.

(** ** TensorFlow operations, at the level of shapes

    A tensor of rank three is followed by its shape [(batch, time, channels)].
    The operations below are TensorFlow's; they are modelled from its
    shape rules. *)

Definition shape : Type := (nat * nat * nat)%type.

(** [tf.pad(x, [[0, 0], [before, after], [0, 0]])] *)
Definition tf_pad_time (x : shape) (before after : Z) : result shape :=
  let '(b, t, c) := x in
  if ((before <? 0) || (after <? 0))%Z then Raise InvalidArgumentError
  else Ok (b, Z.to_nat (Z.of_nat t + before + after), c).

(** [tf.nn.conv1d(x, filters, stride=stride, padding="VALID")] with
    [filters] of shape [(filter_width, in_channels, out_channels)]: the
    output length is [(time - filter_width + stride) / stride], rounded
    towards zero, and must not be negative. *)
Definition tf_conv1d_valid (x : shape) (filter_shape : nat * nat * nat) (stride : Z)
  : result shape :=
  let '(b, t, c) := x in
  let '(filter_width, in_channels, out_channels) := filter_shape in
  if (stride <=? 0)%Z then Raise InvalidArgumentError
  else if negb (c =? in_channels)%nat then Raise InvalidArgumentError
  else
    let out := ((Z.of_nat t - Z.of_nat filter_width + stride) ÷ stride)%Z in
    if (out <? 0)%Z then Raise InvalidArgumentError
    else Ok (b, Z.to_nat out, out_channels).

(** [tf.nn.conv1d_transpose(x, filters, output_shape, strides)] (padding
    "SAME") with [filters] of shape [(filter_width, out_channels,
    in_channels)]: the result has the requested [output_shape], which must
    be one that a convolution of stride [strides] maps back to the shape of
    [x]. *)
Definition tf_conv1d_transpose (x : shape) (filter_shape : nat * nat * nat)
    (output_shape : Z * Z * Z) (strides : Z) : result shape :=
  let '(b, t, c) := x in
  let '(filter_width, out_channels, in_channels) := filter_shape in
  let '(ob, ot, oc) := output_shape in
  if (strides <=? 0)%Z then Raise InvalidArgumentError
  else if negb (c =? in_channels)%nat then Raise InvalidArgumentError
  else if negb ((ob =? Z.of_nat b) && (oc =? Z.of_nat out_channels) && (0 <=? ot))%Z
       then Raise InvalidArgumentError
  else if negb ((ot + strides - 1) / strides =? Z.of_nat t)%Z
       then Raise InvalidArgumentError
  else Ok (Z.to_nat ob, Z.to_nat ot, Z.to_nat oc).

(** [TFPQMF.analysis], on the shape of [x]; its input signature is
    [(None, None, 1)]. *)
Definition analysis (self : TFPQMF) (x : shape) : result shape :=
  let '(_, _, channels) := x in
  if negb (channels =? 1)%nat then Raise ValueError
  else
    x <- tf_pad_time x (pqmf_taps self / 2)%Z (pqmf_taps self / 2)%Z ;;
    x <- tf_conv1d_valid x (shape3 (analysis_filter self)) 1 ;;
    x <- tf_conv1d_valid x (shape3 (updown_filter self)) (pqmf_subbands self) ;;
    Ok x.

(** [TFPQMF.synthesis], on the shape of [x]. Scaling [updown_filter] by
    [subbands] does not change its shape. *)
Definition synthesis (self : TFPQMF) (x : shape) : result shape :=
  let '(b, t, _) := x in
  x <- tf_conv1d_transpose x (shape3 (updown_filter self))
         (Z.of_nat b, Z.of_nat t * pqmf_subbands self, pqmf_subbands self)%Z
         (pqmf_subbands self) ;;
  x <- tf_pad_time x (pqmf_taps self / 2)%Z (pqmf_taps self / 2)%Z ;;
  tf_conv1d_valid x (shape3 (synthesis_filter self)) 1.

(** ** The generator *)

(** The layers of the [Sequential] model, with the arguments they are
    constructed from. *)
Inductive layer : Type :=
| TFReflectionPad1d (padding_size : Z) (padding_type : string)
| Conv1D (filters kernel_size : Z) (use_bias : bool) (seed : Z)
| NonlinearActivation (name : string) (params : list (string * R))
| TFConvTranspose1d (filters kernel_size strides : Z) (padding : string)
    (is_weight_norm : bool) (seed : Z)
| TFResidualStack (kernel_size filters dilation_rate : Z) (use_bias : bool)
    (nonlinear_activation : string) (params : list (string * R))
    (is_weight_norm : bool) (seed : Z)
| Activation (name : string).

Record MBMelGANGenerator : Type := {
  melgan : list layer;
  pqmf : TFPQMF
}.

(** Python's [enumerate]. *)
Definition enumerate {A : Type} (l : list A) : list (Z * A) :=
  combine (arange (Z.of_nat (length l))) l.

Definition wrap_int64 (z : Z) : Z := ((z + 2 ^ 63) mod 2 ^ 64 - 2 ^ 63)%Z.

(** [np.prod] of a list of integers: numpy gives a list of integers that
    fit in 64 bits the dtype int64, and multiplies them as 64-bit
    integers, silently wrapping around. *)
Definition np_prod (l : list Z) : Z :=
  fold_left (fun acc x => wrap_int64 (acc * x)) l 1%Z.

(** The upsampling layer of stage [i] followed by its residual stacks. *)
Definition upsample_stage (config : Config) (i upsample_scale : Z) : list layer :=
  [ NonlinearActivation (nonlinear_activation config)
      (nonlinear_activation_params config);
    TFConvTranspose1d
      (filters config / 2 ^ (i + 1))%Z
      (upsample_scale * 2)%Z
      upsample_scale
      "same"%string
      (is_weight_norm config)
      (initializer_seed config) ]
  ++ map (fun j =>
            TFResidualStack
              (stack_kernel_size config)
              (filters config / 2 ^ (i + 1))%Z
              (stack_kernel_size config ^ j)%Z
              (use_bias config)
              (nonlinear_activation config)
              (nonlinear_activation_params config)
              (is_weight_norm config)
              (initializer_seed config))
         (arange (stacks config)).

(** The list [layers] handed to [tf.keras.models.Sequential]. *)
Definition generator_layers (config : Config) : list layer :=
  (* add initial layer *)
  [ TFReflectionPad1d ((kernel_size config - 1) / 2)%Z (padding_type config);
    Conv1D (filters config) (kernel_size config) (use_bias config)
      (initializer_seed config) ]
  ++ flat_map (fun '(i, upsample_scale) => upsample_stage config i upsample_scale)
       (enumerate (upsample_scales config))
  (* add final layer *)
  ++ [ NonlinearActivation (nonlinear_activation config)
         (nonlinear_activation_params config);
       TFReflectionPad1d ((kernel_size config - 1) / 2)%Z (padding_type config);
       Conv1D (out_channels config) (kernel_size config) (use_bias config)
         (initializer_seed config) ]
  ++ (if use_final_nolinear_activation config then [Activation "tanh"%string] else []).

(** [MBMelGANGenerator.__init__]. The layers are recorded with the
    arguments they are constructed from; what their constructors, which
    are not part of this file, may raise is not followed. *)
Definition MBMelGANGenerator_init (config : Config) : result MBMelGANGenerator :=
  _ <- py_assert (np_prod (upsample_scales config) <=? filters config)%Z None ;;
  _ <- py_assert
         (filters config mod 2 ^ Z.of_nat (length (upsample_scales config)) =? 0)%Z
         None ;;
  let layers := generator_layers config in
  pqmf <- TFPQMF_init config ;;
  Ok {| melgan := layers; pqmf := pqmf |}.

(** Modelled from the spec: the layers of [tensorflow_tts.modules] and of
    Keras are not part of this file; their effect on the shape is taken
    from the description of the generator. Reflection padding lengthens
    the time axis by [padding_size] on each side; a convolution (no
    padding, stride one) maps to [filters] channels; a transposed
    convolution multiplies the time length by its stride and sets the
    channel count to [filters]; residual stacks and activations preserve
    the shape. *)
Definition call_layer (l : layer) (x : shape) : result shape :=
  match l with
  | TFReflectionPad1d padding_size _ => tf_pad_time x padding_size padding_size
  | Conv1D filters kernel_size _ _ =>
      let '(_, _, c) := x in
      tf_conv1d_valid x (Z.to_nat kernel_size, c, Z.to_nat filters) 1
  | NonlinearActivation _ _ => Ok x
  | TFConvTranspose1d filters _ strides _ _ _ =>
      let '(b, t, _) := x in
      Ok (b, Z.to_nat (Z.of_nat t * strides), Z.to_nat filters)
  | TFResidualStack _ _ _ _ _ _ _ _ => Ok x
  | Activation _ => Ok x
  end.

(** Calling the [Sequential] model: the layers in order. *)
Definition call_sequential (layers : list layer) (x : shape) : result shape :=
  for_each layers (fun x l => call_layer l x) x.

(** [MBMelGANGenerator.inference], on the shape of [mels]; its input
    signature is [(None, None, 80)]. *)
Definition inference (self : MBMelGANGenerator) (mels : shape) : result shape :=
  let '(_, _, channels) := mels in
  if negb (channels =? 80)%nat then Raise ValueError
  else
    mb_audios <- call_sequential (melgan self) mels ;;
    synthesis (pqmf self) mb_audios.

(** ** Definitions used to state the properties *)

(** The ideal low-pass impulse response of the specification:
    [sin(pi * cutoff_ratio * (n - taps/2)) / (pi * (n - taps/2))], with the
    sample at the singular index [n = taps/2] set to [cutoff_ratio]. *)
Definition ideal_lowpass (taps : nat) (cutoff_ratio : R) (n : nat) : R :=
  if (n =? taps / 2)%nat then cutoff_ratio
  else sin (PI * cutoff_ratio * (INR n - INR taps / 2)) / (PI * (INR n - INR taps / 2)).

(** The value of [I0(beta * sqrt(1 - ((n - alpha)/alpha)^2)) / I0(beta)],
    [alpha = taps/2], of the Kaiser window of length [taps + 1] at index
    [n]. *)
Definition kaiser_coef (taps : nat) (beta : R) (n : nat) : R :=
  if (taps =? 0)%nat then 1
  else bessel_i0 (beta * sqrt (1 - ((INR n - INR taps / 2) / (INR taps / 2)) ^ 2))
       / bessel_i0 beta.

(** The sample of the Kaiser window of length [taps + 1] at index [n], as
    [kaiser] computes it. *)
Definition kaiser_sample (taps : nat) (beta : R) (n : nat) : npfloat :=
  if (taps =? 0)%nat then Fin 1
  else npdiv (i0 (beta * sqrt (1 - ((INR n - INR taps / 2) / (INR taps / 2)) ^ 2)))
             (i0 beta).

(** The windowed coefficient at index [n]: as a real number, and as
    [design_prototype_filter] computes it. *)
Definition prototype_coef (taps : nat) (cutoff_ratio beta : R) (n : nat) : R :=
  ideal_lowpass taps cutoff_ratio n * kaiser_coef taps beta n.

Definition prototype_sample (taps : nat) (cutoff_ratio beta : R) (n : nat) : npfloat :=
  npmul (Fin (ideal_lowpass taps cutoff_ratio n)) (kaiser_sample taps beta n).

(** The arguments of the cosines of the modulation, for sub-band [k] and
    tap [n]. *)
Definition analysis_phase (subbands taps k n : nat) : R :=
  (2 * INR k + 1) * (PI / (2 * INR subbands)) * (INR n - INR taps / 2)
  + (-1) ^ k * PI / 4.

Definition synthesis_phase (subbands taps k n : nat) : R :=
  (2 * INR k + 1) * (PI / (2 * INR subbands)) * (INR n - INR taps / 2)
  - (-1) ^ k * PI / 4.

(** The positions of the non-zero entries of an array, in row-major order
    (what [np.argwhere] returns). *)
Definition is_nonzero (x : npfloat) : bool :=
  match x with
  | Fin r => if Req_dec_T r 0 then false else true
  | _ => true
  end.

Definition indices3 (sh : nat * nat * nat) : list (nat * nat * nat) :=
  let '(d0, d1, d2) := sh in
  flat_map (fun i => flat_map (fun j => map (fun k => (i, j, k)) (seq 0 d2)) (seq 0 d1))
           (seq 0 d0).

Definition nonzero_positions (a : ndarray3) : list (nat * nat * nat) :=
  filter (fun '(i, j, k) => is_nonzero (get3 a i j k)) (indices3 (shape3 a)).

(** The product of a list of integers, without wrap-around. *)
Definition product (l : list Z) : Z := fold_right Z.mul 1%Z l.

(** The exception of the two unlabelled assertions that open
    [MBMelGANGenerator.__init__]. *)
Definition config_error : exn := AssertionError None.

(** A configuration with [upsample_scales = [8, 8, 4]] and the filterbank
    parameters [subbands = 4], [taps = 62], [cutoff_ratio = 0.15],
    [beta = 9.0]. *)
Definition example_config : Config := {|
  filters := 512;
  kernel_size := 7;
  upsample_scales := [8; 8; 4]%Z;
  stacks := 4;
  stack_kernel_size := 3;
  use_bias := true;
  nonlinear_activation := "LeakyReLU"%string;
  nonlinear_activation_params := [("alpha"%string, 0.2)];
  is_weight_norm := false;
  initializer_seed := 42;
  padding_type := "REFLECT"%string;
  out_channels := 4;
  use_final_nolinear_activation := true;
  subbands := 4;
  taps := 62;
  cutoff_ratio := 0.15;
  beta := 9
|}.


(** ** The other entry points of the generator, and more definitions used
    to state properties *)

(** [config] with another number of sub-bands. *)
Definition with_subbands (config : Config) (s : Z) : Config := {|
  filters := filters config;
  kernel_size := kernel_size config;
  upsample_scales := upsample_scales config;
  stacks := stacks config;
  stack_kernel_size := stack_kernel_size config;
  use_bias := use_bias config;
  nonlinear_activation := nonlinear_activation config;
  nonlinear_activation_params := nonlinear_activation_params config;
  is_weight_norm := is_weight_norm config;
  initializer_seed := initializer_seed config;
  padding_type := padding_type config;
  out_channels := out_channels config;
  use_final_nolinear_activation := use_final_nolinear_activation config;
  subbands := s;
  taps := taps config;
  cutoff_ratio := cutoff_ratio config;
  beta := beta config
|}.

(** [MBMelGANGenerator.call] *)
Definition call (self : MBMelGANGenerator) (mels : shape) : result shape :=
  inference self mels.

(** [MBMelGANGenerator.inference_tflite], on the shape of [mels]; its input
    signature is [(1, None, 80)]. *)
Definition inference_tflite (self : MBMelGANGenerator) (mels : shape) : result shape :=
  let '(batch, _, channels) := mels in
  if negb ((batch =? 1) && (channels =? 80))%nat then Raise ValueError
  else
    mb_audios <- call_sequential (melgan self) mels ;;
    synthesis (pqmf self) mb_audios.

(** [MBMelGANGenerator._build]: the model is called on fake mels of shape
    [(1, 100, 80)] and the output is dropped. *)
Definition _build (self : MBMelGANGenerator) : result unit :=
  let fake_mels := (1, 100, 80)%nat in
  _ <- call self fake_mels ;;
  Ok tt.

(** The transposed convolutions among [layers], in order, each with its
    [(filters, kernel_size, strides)]. *)
Definition conv_transpose_layers (layers : list layer) : list (Z * Z * Z) :=
  flat_map (fun l => match l with
                     | TFConvTranspose1d filters kernel_size strides _ _ _ =>
                         [(filters, kernel_size, strides)]
                     | _ => []
                     end) layers.

(** [config] with another kernel size. *)
Definition with_kernel_size (config : Config) (k : Z) : Config := {|
  filters := filters config;
  kernel_size := k;
  upsample_scales := upsample_scales config;
  stacks := stacks config;
  stack_kernel_size := stack_kernel_size config;
  use_bias := use_bias config;
  nonlinear_activation := nonlinear_activation config;
  nonlinear_activation_params := nonlinear_activation_params config;
  is_weight_norm := is_weight_norm config;
  initializer_seed := initializer_seed config;
  padding_type := padding_type config;
  out_channels := out_channels config;
  use_final_nolinear_activation := use_final_nolinear_activation config;
  subbands := subbands config;
  taps := taps config;
  cutoff_ratio := cutoff_ratio config;
  beta := beta config
|}.




(** * Properties *)

(** ** The result monad *)

Lemma bind_Ok {A B} (a : A) (k : A -> result B) : bind (Ok a) k = k a.
Proof. reflexivity. Qed.

Lemma bind_Ok_inv {A B} (m : result A) (k : A -> result B) (b : B) :
  bind m k = Ok b -> exists a, m = Ok a /\ k a = Ok b.
Proof. destruct m as [a|e]; simpl; [eauto|discriminate]. Qed.

Lemma py_assert_true msg : py_assert true msg = Ok tt.
Proof. reflexivity. Qed.

Lemma for_each_app {A S} (l1 l2 : list A) (body : S -> A -> result S) (s : S) :
  for_each (l1 ++ l2) body s = (s' <- for_each l1 body s ;; for_each l2 body s').
Proof.
  revert s. induction l1 as [|x l1 IH]; intros s; simpl; [reflexivity|].
  destruct (body s x) as [s1|e]; simpl; [apply IH|reflexivity].
Qed.

Lemma for_each_invariant {A S : Type} (P : nat -> S -> Prop)
    (l : list A) (body : S -> A -> result S) (s0 : S) :
  P O s0 ->
  (forall i s x, nth_error l i = Some x -> P i s ->
                 exists s', body s x = Ok s' /\ P (Datatypes.S i) s') ->
  exists s', for_each l body s0 = Ok s' /\ P (length l) s'.
Proof.
  revert P s0. induction l as [|x l IH]; intros P s0 H0 Hstep; simpl.
  - exists s0. split; [reflexivity|exact H0].
  - destruct (Hstep O s0 x eq_refl H0) as (s1 & Hb & H1).
    rewrite Hb, bind_Ok.
    apply (IH (fun i s => P (Datatypes.S i) s) s1 H1).
    intros i s y Hy Hs. apply (Hstep (Datatypes.S i) s y Hy Hs).
Qed.

(** ** Comparisons, exceptional values and parity *)

Lemma Rlt_b_true x y : x < y -> Rlt_b x y = true.
Proof. intros H. unfold Rlt_b. destruct (Rlt_dec x y); [reflexivity|contradiction]. Qed.

Lemma Rlt_b_false x y : y <= x -> Rlt_b x y = false.
Proof. intros H. unfold Rlt_b. destruct (Rlt_dec x y); [lra|reflexivity]. Qed.

Lemma Rlt_b_true_inv x y : Rlt_b x y = true -> x < y.
Proof. unfold Rlt_b. destruct (Rlt_dec x y); [auto|discriminate]. Qed.

Lemma npdiv_Fin a b : b <> 0 -> npdiv (Fin a) (Fin b) = Fin (a / b).
Proof. intros Hb. simpl. destruct (Req_dec_T b 0); [contradiction|reflexivity]. Qed.

Lemma npdiv_zero_zero : npdiv (Fin 0) (Fin 0) = NaN.
Proof. simpl. destruct (Req_dec_T 0 0) as [_|H]; [reflexivity|now elim H]. Qed.

Lemma is_nonzero_one : is_nonzero (Fin 1) = true.
Proof. simpl. destruct (Req_dec_T 1 0) as [H|_]; [lra|reflexivity]. Qed.

Lemma is_nonzero_zero : is_nonzero (Fin 0) = false.
Proof. simpl. destruct (Req_dec_T 0 0) as [_|H]; [reflexivity|now elim H]. Qed.

Lemma INR_double m : INR (2 * m) = 2 * INR m.
Proof. rewrite mult_INR. simpl. lra. Qed.

Lemma even_half (t : nat) :
  Nat.even t = true ->
  exists m, t = (2 * m)%nat /\ (t / 2)%nat = m /\ (Z.of_nat t / 2)%Z = Z.of_nat m
            /\ (Z.of_nat t mod 2)%Z = 0%Z /\ INR t / 2 = INR m.
Proof.
  intros Ht. apply Nat.even_spec in Ht. destruct Ht as [m ->]. exists m.
  split; [reflexivity|]. split; [|split; [|split]].
  - rewrite Nat.mul_comm. apply Nat.div_mul. lia.
  - rewrite Nat2Z.inj_mul, Z.mul_comm. apply Z_div_mult. lia.
  - rewrite Nat2Z.inj_mul, Z.mul_comm. apply Z_mod_mult.
  - rewrite INR_double. lra.
Qed.

(** ** Lists and indices *)

Lemma length_arange n : length (arange n) = Z.to_nat n.
Proof. unfold arange. now rewrite length_map, length_seq. Qed.

Lemma arange_succ (t : nat) : arange (Z.of_nat t + 1) = map Z.of_nat (seq 0 (S t)).
Proof.
  unfold arange. replace (Z.to_nat (Z.of_nat t + 1)) with (S t) by lia. reflexivity.
Qed.

Lemma arange_of_nat (t : nat) : arange (Z.of_nat t) = map Z.of_nat (seq 0 t).
Proof. unfold arange. now rewrite Nat2Z.id. Qed.

Lemma nth_map_arange {A} (f : Z -> A) (m : Z) (n : nat) (d : A) :
  (n < Z.to_nat m)%nat -> nth n (map f (arange m)) d = f (Z.of_nat n).
Proof.
  intros Hn. unfold arange. rewrite map_map.
  rewrite (nth_indep _ d (f (Z.of_nat O))) by (now rewrite length_map, length_seq).
  rewrite (map_nth (fun x => f (Z.of_nat x)) (seq 0 (Z.to_nat m)) O n).
  now rewrite seq_nth.
Qed.

Lemma nth_map_seq {A} (f : nat -> A) (len n : nat) (d : A) :
  (n < len)%nat -> nth n (map f (seq 0 len)) d = f n.
Proof.
  intros Hn.
  rewrite (nth_indep _ d (f O)) by (now rewrite length_map, length_seq).
  rewrite (map_nth f (seq 0 len) O n). now rewrite seq_nth.
Qed.

Lemma nth_error_arange (s i : nat) (x : Z) :
  nth_error (arange (Z.of_nat s)) i = Some x -> x = Z.of_nat i /\ (i < s)%nat.
Proof.
  rewrite arange_of_nat. intros H.
  assert (Hi : (i < s)%nat).
  { assert (Hs : nth_error (map Z.of_nat (seq 0 s)) i <> None) by congruence.
    apply nth_error_Some in Hs. now rewrite length_map, length_seq in Hs. }
  rewrite nth_error_map in H.
  rewrite (nth_error_nth' _ O) in H by (now rewrite length_seq).
  rewrite seq_nth in H by exact Hi. simpl in H. injection H as <-. auto.
Qed.

Lemma list_set_map {A B} (f : A -> B) (l : list A) (i : nat) (v : B) (g : A -> B) (a : A) :
  nth_error l i = Some a ->
  NoDup l ->
  (forall x, x <> a -> g x = f x) -> g a = v ->
  list_set i v (map f l) = map g l.
Proof.
  revert i. induction l as [|x l IH]; intros [|i] Hi Hnd Hg Hv; simpl in *; try discriminate.
  - injection Hi as ->. f_equal; [now rewrite Hv|].
    apply map_ext_in. intros y Hy. symmetry. apply Hg.
    inversion Hnd; subst. intros ->. contradiction.
  - inversion Hnd; subst. f_equal.
    + symmetry. apply Hg. intros ->. apply nth_error_In in Hi. contradiction.
    + now apply IH.
Qed.

Lemma length_mul_elementwise a b :
  length (mul_elementwise a b) = Nat.min (length a) (length b).
Proof. revert b. induction a as [|x a IH]; intros [|y b]; simpl; auto. Qed.

Lemma nth_mul_elementwise a b n :
  (n < length a)%nat -> (n < length b)%nat ->
  nth n (mul_elementwise a b) NaN = npmul (nth n a NaN) (nth n b NaN).
Proof.
  revert b n. induction a as [|x a IH]; intros [|y b] [|n] Ha Hb; simpl in *; try lia; auto.
  apply IH; lia.
Qed.

Lemma mul_elementwise_map {A} (f g : A -> npfloat) (l : list A) :
  mul_elementwise (map f l) (map g l) = map (fun x => npmul (f x) (g x)) l.
Proof. induction l as [|x l IH]; simpl; [reflexivity|now rewrite IH]. Qed.

Lemma norm_index_in_range (i len : nat) :
  (i < len)%nat -> norm_index (Z.of_nat i) len = Ok i.
Proof.
  intros Hi. unfold norm_index.
  destruct (Z.leb_spec 0 (Z.of_nat i)); [|lia].
  destruct (Z.ltb_spec (Z.of_nat i) (Z.of_nat len)); [|lia].
  cbn [andb]. now rewrite Nat2Z.id.
Qed.

Lemma map_snd_combine {A B} (xs : list A) (ys : list B) :
  length xs = length ys -> map snd (combine xs ys) = ys.
Proof.
  revert ys. induction xs as [|x xs IH]; intros [|y ys] Hlen;
    simpl in *; try discriminate; auto.
  f_equal. apply IH. lia.
Qed.

Lemma map_snd_enumerate {A} (l : list A) : map snd (enumerate l) = l.
Proof.
  unfold enumerate. apply map_snd_combine.
  now rewrite length_arange, Nat2Z.id.
Qed.

(** ** The Bessel function and the overflow of [i0] *)

Lemma sum_ge_first (f : nat -> R) :
  (forall n, 0 <= f n) -> forall n, f 0%nat <= sum_f_R0 f n.
Proof.
  intros Hf. induction n as [|n IH]; simpl; [lra|].
  pose proof (Hf (S n)). lra.
Qed.

Lemma bessel_i0_ge_1 x : 1 <= bessel_i0 x.
Proof.
  unfold bessel_i0. destruct (exist_i0 (x * x / 4)) as [l Hl]. simpl.
  destruct (Rle_dec 1 l) as [H|H]; [exact H|exfalso].
  apply Rnot_le_lt in H.
  destruct (Hl (1 - l)) as [N HN]; [lra|].
  specialize (HN N (Nat.le_refl N)).
  assert (Hs : 1 <= sum_f_R0 (fun n => i0_coef n * (x * x / 4) ^ n) N).
  { eapply Rle_trans; [|apply (sum_ge_first (fun n => i0_coef n * (x * x / 4) ^ n))].
    - unfold i0_coef. simpl. lra.
    - intro n. apply Rmult_le_pos; [left; apply i0_coef_pos|].
      apply pow_le. nra. }
  unfold Rdist in HN. rewrite Rabs_pos_eq in HN; lra.
Qed.

Lemma bessel_i0_neq_0 x : bessel_i0 x <> 0.
Proof. pose proof (bessel_i0_ge_1 x). lra. Qed.

Lemma exp_monotone (x y : R) : x <= y -> exp x <= exp y.
Proof. intros [H| ->]; [left; now apply exp_increasing|right; reflexivity]. Qed.

Lemma exp_mult_nat (n : nat) (x : R) : exp (INR n * x) = exp x ^ n.
Proof.
  induction n as [|n IH].
  - simpl. rewrite Rmult_0_l. apply exp_0.
  - rewrite S_INR, Rmult_plus_distr_r, Rmult_1_l, exp_plus, IH. simpl. ring.
Qed.

Lemma float64_max_bounds : 2 ^ 1023 <= float64_max < 2 ^ 1024.
Proof.
  unfold float64_max.
  assert (H0 : 0 < 2 ^ 1023) by (apply pow_lt; lra).
  assert (H1 : 0 < / 2 ^ 52 <= 1).
  { split; [apply Rinv_0_lt_compat, pow_lt; lra|].
    rewrite <- Rinv_1. apply Rinv_le_contravar; [lra|]. apply pow_R1_Rle. lra. }
  change (2 ^ 1024) with (2 * 2 ^ 1023). nra.
Qed.

Lemma i0_finite_iff (x : R) : is_finite (i0 x) = true <-> exp (Rabs x) <= float64_max.
Proof.
  unfold i0. destruct (Rle_dec (exp (Rabs x)) float64_max) as [H|H]; simpl.
  - split; auto.
  - split; [discriminate|contradiction].
Qed.

Lemma i0_finite (x : R) : is_finite (i0 x) = true -> i0 x = Fin (bessel_i0 x).
Proof.
  unfold i0. destruct (Rle_dec (exp (Rabs x)) float64_max); [reflexivity|discriminate].
Qed.

Lemma i0_overflow (x : R) : float64_max < exp (Rabs x) -> i0 x = Inf false.
Proof.
  intros H. unfold i0.
  destruct (Rle_dec (exp (Rabs x)) float64_max); [lra|reflexivity].
Qed.

Lemma i0_finite_below (x y : R) :
  Rabs x <= Rabs y -> is_finite (i0 y) = true -> is_finite (i0 x) = true.
Proof.
  intros Hxy Hy. apply i0_finite_iff. apply i0_finite_iff in Hy.
  eapply Rle_trans; [apply exp_monotone; exact Hxy|exact Hy].
Qed.

(** [beta = 9.0] is far from the overflow: [exp 9 <= 3^9]. *)
Lemma i0_finite_9 : is_finite (i0 9) = true.
Proof.
  apply i0_finite_iff. rewrite Rabs_pos_eq by lra.
  replace 9 with (INR 9 * 1) by (simpl; lra). rewrite exp_mult_nat.
  apply Rle_trans with (3 ^ 9).
  - apply pow_incr. split; [left; apply exp_pos|apply exp_le_3].
  - apply Rle_trans with (2 ^ 1023); [|apply float64_max_bounds].
    apply Rle_trans with (2 ^ 15); [simpl; lra|].
    apply Rle_pow; [lra|lia].
Qed.

(** [beta = 1000.0] is beyond it: [exp 1000 = (exp (1/2))^2000 > (3/2)^2000 > 2^1024]. *)
Lemma i0_overflow_1000 : i0 1000 = Inf false.
Proof.
  apply i0_overflow. rewrite Rabs_pos_eq by lra.
  apply Rlt_le_trans with (2 ^ 1024); [apply float64_max_bounds|].
  replace 1000 with (INR 2000 * (1 / 2)) by (rewrite INR_IZR_INZ; simpl; lra).
  rewrite exp_mult_nat.
  apply Rle_trans with ((3 / 2) ^ 2000).
  - apply (Rmult_le_reg_r (2 ^ 2000)); [apply pow_lt; lra|].
    rewrite <- Rpow_mult_distr. replace (3 / 2 * 2) with 3 by lra.
    rewrite <- pow_add.
    rewrite !pow_IZR. apply IZR_le. vm_compute. discriminate.
  - apply pow_incr. split; [lra|].
    pose proof (exp_ineq1_le (1 / 2)). lra.
Qed.

(** ** The Kaiser window *)

Lemma kaiser_samples (t : nat) (beta : R) :
  kaiser (Z.of_nat t + 1) beta = Ok (map (kaiser_sample t beta) (seq 0 (S t))).
Proof.
  unfold kaiser.
  destruct (Z.ltb_spec (Z.of_nat t + 1) 0) as [H|_]; [lia|].
  destruct (Z.leb_spec (Z.of_nat t + 1) 1) as [H|H].
  - assert (t = 0%nat) by lia. subst t. reflexivity.
  - rewrite arange_succ, map_map. f_equal. apply map_ext. intros n.
    unfold kaiser_sample. destruct (Nat.eqb_spec t 0) as [->|_]; [simpl in H; lia|].
    rewrite plus_IZR, <- !INR_IZR_INZ.
    replace (INR t + 1 - 1) with (INR t) by lra. reflexivity.
Qed.

(** No argument handed to [i0] exceeds [beta] in absolute value: when
    [i0(beta)] is finite, so is every sample of the window. *)
Lemma kaiser_sample_finite (t n : nat) (beta : R) :
  is_finite (i0 beta) = true -> kaiser_sample t beta n = Fin (kaiser_coef t beta n).
Proof.
  intros Hb. unfold kaiser_sample, kaiser_coef.
  destruct (t =? 0)%nat; [reflexivity|].
  set (q := (INR n - INR t / 2) / (INR t / 2)).
  assert (Hs : sqrt (1 - q ^ 2) <= 1).
  { rewrite <- sqrt_1 at 2. apply sqrt_le_1_alt. pose proof (pow2_ge_0 q). lra. }
  assert (Hu : is_finite (i0 (beta * sqrt (1 - q ^ 2))) = true).
  { apply (i0_finite_below _ beta); [|exact Hb].
    rewrite Rabs_mult, (Rabs_pos_eq (sqrt (1 - q ^ 2))) by apply sqrt_pos.
    pose proof (Rabs_pos beta). pose proof (sqrt_pos (1 - q ^ 2)). nra. }
  rewrite (i0_finite _ Hu), (i0_finite _ Hb).
  apply npdiv_Fin, bessel_i0_neq_0.
Qed.

Lemma kaiser_closed_form (t : nat) (beta : R) :
  is_finite (i0 beta) = true ->
  kaiser (Z.of_nat t + 1) beta = Ok (map (fun n => Fin (kaiser_coef t beta n)) (seq 0 (S t))).
Proof.
  intros Hb. rewrite kaiser_samples. f_equal. apply map_ext.
  intros n. now apply kaiser_sample_finite.
Qed.

Lemma kaiser_coef_center (t : nat) (beta : R) :
  Nat.even t = true -> kaiser_coef t beta (t / 2) = 1.
Proof.
  intros Ht. destruct (even_half t Ht) as (m & Htm & Hdivn & _ & _ & Hhalf).
  unfold kaiser_coef. destruct (Nat.eqb_spec t 0) as [_|Hne]; [reflexivity|].
  rewrite Hdivn, Hhalf.
  replace ((INR m - INR m) / INR m) with 0 by (unfold Rdiv; ring).
  replace (1 - 0 ^ 2) with 1 by (simpl; ring).
  rewrite sqrt_1, Rmult_1_r. apply Rdiv_diag. apply bessel_i0_neq_0.
Qed.

Lemma kaiser_sample_center (t : nat) (beta : R) :
  Nat.even t = true -> t <> 0%nat ->
  kaiser_sample t beta (t / 2) = npdiv (i0 beta) (i0 beta).
Proof.
  intros Ht Hne. destruct (even_half t Ht) as (m & Htm & Hdivn & _ & _ & Hhalf).
  unfold kaiser_sample. destruct (Nat.eqb_spec t 0) as [E|_]; [contradiction|].
  rewrite Hdivn, Hhalf.
  replace ((INR m - INR m) / INR m) with 0 by (unfold Rdiv; ring).
  replace (1 - 0 ^ 2) with 1 by (simpl; ring).
  now rewrite sqrt_1, Rmult_1_r.
Qed.

Lemma kaiser_sample_sym (t n : nat) (beta : R) :
  (n <= t)%nat -> kaiser_sample t beta (t - n) = kaiser_sample t beta n.
Proof.
  intros Hn. unfold kaiser_sample.
  destruct (Nat.eqb_spec t 0) as [_|Hne]; [reflexivity|].
  assert (Ht : INR t <> 0) by (now apply not_0_INR).
  rewrite minus_INR by exact Hn.
  replace ((INR t - INR n - INR t / 2) / (INR t / 2))
    with (- ((INR n - INR t / 2) / (INR t / 2))) by (field; exact Ht).
  replace ((- ((INR n - INR t / 2) / (INR t / 2))) ^ 2)
    with (((INR n - INR t / 2) / (INR t / 2)) ^ 2) by (simpl; ring).
  reflexivity.
Qed.

(** ** The prototype filter *)

Lemma ideal_lowpass_center (t : nat) (c : R) : ideal_lowpass t c (t / 2) = c.
Proof. unfold ideal_lowpass. now rewrite Nat.eqb_refl. Qed.

Lemma ideal_lowpass_sym (t n : nat) (c : R) :
  Nat.even t = true -> (n <= t)%nat ->
  ideal_lowpass t c (t - n) = ideal_lowpass t c n.
Proof.
  intros Ht Hn. destruct (even_half t Ht) as (m & Htm & Hdivn & _ & _ & Hhalf).
  unfold ideal_lowpass. rewrite Hdivn.
  destruct (Nat.eqb_spec n m) as [->|Hne].
  - replace (t - m)%nat with m by lia. now rewrite Nat.eqb_refl.
  - destruct (Nat.eqb_spec (t - n) m) as [E|_]; [lia|].
    rewrite minus_INR by exact Hn. rewrite Hhalf.
    assert (Ht2 : INR t = 2 * INR m) by lra.
    assert (Hnm : INR n - INR m <> 0).
    { intros E. apply Hne. apply INR_eq. lra. }
    replace (PI * c * (INR t - INR n - INR m)) with (- (PI * c * (INR n - INR m)))
      by (rewrite Ht2; ring).
    replace (PI * (INR t - INR n - INR m)) with (- (PI * (INR n - INR m)))
      by (rewrite Ht2; ring).
    rewrite sin_neg. field. split; [exact Hnm|apply PI_neq0].
Qed.

Lemma prototype_sample_sym (t n : nat) (c beta : R) :
  Nat.even t = true -> (n <= t)%nat ->
  prototype_sample t c beta (t - n) = prototype_sample t c beta n.
Proof.
  intros Ht Hn. unfold prototype_sample.
  now rewrite ideal_lowpass_sym, kaiser_sample_sym.
Qed.

Lemma prototype_sample_finite (t n : nat) (c beta : R) :
  is_finite (i0 beta) = true ->
  prototype_sample t c beta n = Fin (prototype_coef t c beta n).
Proof.
  intros Hb. unfold prototype_sample. now rewrite kaiser_sample_finite.
Qed.

Lemma prototype_coef_center (t : nat) (c beta : R) :
  Nat.even t = true -> prototype_coef t c beta (t / 2) = c.
Proof.
  intros Ht. unfold prototype_coef.
  rewrite ideal_lowpass_center, kaiser_coef_center by exact Ht. ring.
Qed.

(** The filter that [design_prototype_filter] returns, sample by sample. *)
Lemma design_prototype_filter_samples (t : nat) (c beta : R) :
  Nat.even t = true -> 0 < c < 1 ->
  design_prototype_filter (Z.of_nat t) c beta
  = Ok (map (prototype_sample t c beta) (seq 0 (S t))).
Proof.
  intros Ht [Hc0 Hc1].
  destruct (even_half t Ht) as (m & Htm & Hdivn & Hdiv & Hmod & Hhalf).
  unfold design_prototype_filter.
  rewrite Hmod, Z.eqb_refl, (Rlt_b_true 0 c), (Rlt_b_true c 1) by assumption.
  cbn [andb]. rewrite py_assert_true, !bind_Ok.
  rewrite Hdiv, arange_succ, map_map.
  unfold setitem. rewrite length_map, length_seq.
  destruct (Z.leb_spec 0 (Z.of_nat m)) as [_|H]; [|lia].
  destruct (Z.ltb_spec (Z.of_nat m) (Z.of_nat (S t))) as [_|H]; [|lia].
  cbn [andb]. rewrite Nat2Z.id, bind_Ok.
  rewrite kaiser_samples, bind_Ok.
  erewrite (list_set_map _ _ m _
              (fun n => Fin (ideal_lowpass t c n)) m).
  - rewrite mul_elementwise_map. reflexivity.
  - rewrite nth_error_nth' with (d := O) by (rewrite length_seq; lia).
    rewrite seq_nth by lia. reflexivity.
  - apply seq_NoDup.
  - intros n Hn. unfold ideal_lowpass. rewrite Hdivn.
    destruct (Nat.eqb_spec n m) as [->|_]; [contradiction|].
    rewrite <- !INR_IZR_INZ.
    assert (Hnm : INR n - INR m <> 0).
    { intros E. apply Hn. apply INR_eq. lra. }
    rewrite npdiv_Fin.
    + f_equal. f_equal; [f_equal|]; lra.
    + pose proof PI_RGT_0. intros E. apply Rmult_integral in E. destruct E; lra.
  - unfold ideal_lowpass. rewrite Hdivn, Nat.eqb_refl. rewrite cos_0. f_equal. lra.
Qed.

(** When [i0(beta)] is finite, every sample is a real number. *)
Lemma design_prototype_filter_closed_form (t : nat) (c beta : R) :
  Nat.even t = true -> 0 < c < 1 -> is_finite (i0 beta) = true ->
  design_prototype_filter (Z.of_nat t) c beta
  = Ok (map (fun n => Fin (prototype_coef t c beta n)) (seq 0 (S t))).
Proof.
  intros Ht Hc Hb. rewrite design_prototype_filter_samples by assumption.
  f_equal. apply map_ext. intros n. now apply prototype_sample_finite.
Qed.

(** When [i0(beta)] overflows, the centre of the window is inf/inf. *)
Lemma design_prototype_filter_overflow (t : nat) (c beta : R) :
  Nat.even t = true -> t <> 0%nat -> 0 < c < 1 -> i0 beta = Inf false ->
  exists h, design_prototype_filter (Z.of_nat t) c beta = Ok h /\
            nth (t / 2) h NaN = NaN.
Proof.
  intros Ht Hne Hc Hb. eexists.
  split; [apply design_prototype_filter_samples; assumption|].
  rewrite nth_map_seq by (pose proof (Nat.Div0.div_le_upper_bound t 2 t); lia).
  unfold prototype_sample. rewrite kaiser_sample_center, Hb by assumption.
  reflexivity.
Qed.

Lemma design_prototype_filter_Ok_inv (taps : Z) (c beta : R) (h : list npfloat) :
  design_prototype_filter taps c beta = Ok h ->
  exists t, taps = Z.of_nat t /\ Nat.even t = true /\ 0 < c < 1.
Proof.
  unfold design_prototype_filter. intros H.
  apply bind_Ok_inv in H. destruct H as ([] & Hmod & H).
  apply bind_Ok_inv in H. destruct H as ([] & Hcut & H).
  apply bind_Ok_inv in H. destruct H as (h_i & Hset & _).
  unfold py_assert in Hmod, Hcut.
  destruct (Z.eqb_spec (taps mod 2) 0) as [Hm|]; [|discriminate].
  destruct (Rlt_b 0 c && Rlt_b c 1) eqn:Hc; [|discriminate].
  apply andb_prop in Hc. destruct Hc as [Hc0 Hc1].
  apply Rlt_b_true_inv in Hc0, Hc1.
  assert (Hnn : (0 <= taps)%Z).
  { destruct (Z.le_gt_cases 0 taps) as [|Hneg]; [assumption|exfalso].
    unfold setitem in Hset. rewrite length_map, length_arange in Hset.
    replace (Z.to_nat (taps + 1)) with O in Hset by lia. cbn [Z.of_nat] in Hset.
    destruct (Z.leb_spec 0 (taps / 2)); destruct (Z.ltb_spec (taps / 2) 0);
      cbn [andb Z.opp] in Hset; try discriminate; try lia.
    - pose proof (Z.div_lt_upper_bound taps 2 0); lia.
    - destruct (Z.leb_spec 0 (taps / 2)); [lia|]. cbn [andb] in Hset. discriminate. }
  exists (Z.to_nat taps). split; [lia|]. split; [|lra].
  apply Nat.even_spec. exists (Z.to_nat (taps / 2)).
  pose proof (Z.div_mod taps 2). pose proof (Z.div_pos taps 2). lia.
Qed.

Lemma Z_even_nonneg_nat (z : Z) :
  (0 <= z)%Z -> (z mod 2 = 0)%Z ->
  exists t, z = Z.of_nat t /\ Nat.even t = true.
Proof.
  intros Hz Hm. exists (Z.to_nat z). split; [lia|].
  apply Nat.even_spec. exists (Z.to_nat (z / 2)).
  pose proof (Z.div_mod z 2). pose proof (Z.div_pos z 2). lia.
Qed.

(** Before the centre sample is overwritten it is the indeterminate form
    0/0, which numpy evaluates to NaN. *)
Remark indeterminate_form_at_center (m : nat) (c : R) :
  let taps := Z.of_nat (2 * m) in
  let n := Z.of_nat m in
  npdiv (Fin (sin (PI * c * (IZR n - 0.5 * IZR taps))))
        (Fin (PI * (IZR n - 0.5 * IZR taps)))
  = NaN.
Proof.
  cbv zeta. rewrite <- !INR_IZR_INZ, INR_double.
  replace (INR m - 0.5 * (2 * INR m)) with 0 by lra.
  rewrite !Rmult_0_r, sin_0. apply npdiv_zero_zero.
Qed.

(** A negative number of taps is not a number of taps: an even one passes
    the assertions, the array of samples is empty, and the assignment to
    its centre raises IndexError. *)
Lemma design_prototype_filter_negative_even (taps : Z) (c beta : R) :
  (taps < 0)%Z -> (taps mod 2 = 0)%Z -> 0 < c < 1 ->
  design_prototype_filter taps c beta = Raise IndexError.
Proof.
  intros Hneg Heven [Hc0 Hc1]. unfold design_prototype_filter.
  rewrite Heven, Z.eqb_refl, (Rlt_b_true 0 c), (Rlt_b_true c 1) by assumption.
  cbn [andb]. rewrite py_assert_true, !bind_Ok.
  unfold setitem. rewrite length_map, length_arange.
  replace (Z.to_nat (taps + 1)) with O by lia. cbn [Z.of_nat Z.opp].
  assert (Hd : (taps / 2 < 0)%Z) by (apply Z.div_lt_upper_bound; lia).
  destruct (Z.leb_spec 0 (taps / 2)); [lia|]. cbn [andb].
  destruct (Z.ltb_spec (taps / 2) 0); [|lia]. rewrite andb_false_r || cbn [andb].
  reflexivity.
Qed.

(** C1. For every even number of taps that is not negative, every cutoff
    ratio strictly between 0 and 1 and every [beta] at which [i0] does not
    overflow, [design_prototype_filter] returns, for n = 0..taps, the
    ideal low-pass sample [ideal_lowpass taps cutoff_ratio n] (the
    windowed-sinc formula, and [cutoff_ratio] at the singular index
    taps/2) multiplied by the sample of the Kaiser window of length
    taps+1 and shape [beta] at n. The window is 1 at its centre, so the
    centre coefficient is exactly [cutoff_ratio]. *)
Theorem design_prototype_filter_windowed_sinc (taps : Z) (cutoff_ratio beta : R) :
  (0 <= taps)%Z ->
  (taps mod 2 = 0)%Z ->
  0 < cutoff_ratio < 1 ->
  is_finite (i0 beta) = true ->
  exists h w,
    design_prototype_filter taps cutoff_ratio beta = Ok h /\
    kaiser (taps + 1) beta = Ok w /\
    length h = Z.to_nat (taps + 1) /\ length w = Z.to_nat (taps + 1) /\
    (forall n, (Z.of_nat n <= taps)%Z ->
       exists w_n, nth n w NaN = Fin w_n /\
                   nth n h NaN
                   = Fin (ideal_lowpass (Z.to_nat taps) cutoff_ratio n * w_n)) /\
    nth (Z.to_nat (taps / 2)) w NaN = Fin 1 /\
    nth (Z.to_nat (taps / 2)) h NaN = Fin cutoff_ratio.
Proof.
  intros Hnn Hmod Hc Hb.
  destruct (Z_even_nonneg_nat taps Hnn Hmod) as (t & -> & Ht).
  destruct (even_half t Ht) as (m & Htm & Hdivn & Hdiv & _).
  rewrite Hdiv, !Nat2Z.id. replace (Z.to_nat (Z.of_nat t + 1)) with (S t) by lia.
  eexists. eexists.
  split; [apply design_prototype_filter_closed_form; assumption|].
  split; [apply kaiser_closed_form; assumption|].
  rewrite !length_map, !length_seq.
  split; [reflexivity|]. split; [reflexivity|].
  split; [|split].
  - intros n Hn. exists (kaiser_coef t beta n).
    rewrite !nth_map_seq by lia. split; reflexivity.
  - rewrite nth_map_seq by lia. rewrite <- Hdivn. now rewrite kaiser_coef_center.
  - rewrite nth_map_seq by lia. rewrite <- Hdivn. now rewrite prototype_coef_center.
Qed.

Lemma design_prototype_filter_windowed_sinc_witness :
  exists h w,
    design_prototype_filter 62 0.15 9 = Ok h /\
    kaiser (62 + 1) 9 = Ok w /\
    length h = 63%nat /\ length w = 63%nat /\
    (forall n, (Z.of_nat n <= 62)%Z ->
       exists w_n, nth n w NaN = Fin w_n /\
                   nth n h NaN = Fin (ideal_lowpass 62 0.15 n * w_n)) /\
    nth 31 w NaN = Fin 1 /\
    nth 31 h NaN = Fin 0.15.
Proof.
  apply (design_prototype_filter_windowed_sinc 62 0.15 9);
    [lia|reflexivity|lra|exact i0_finite_9].
Defined.

(** With [beta = 1000.0] the value [i0(beta)] is infinite: the centre of
    the Kaiser window is inf/inf, and the centre coefficient of the filter
    is NaN, not [cutoff_ratio]. With the even number of taps -2 no filter
    is returned. *)
Lemma design_prototype_filter_center_counterexample :
  (exists h,
     design_prototype_filter 62 0.15 1000 = Ok h /\
     nth 31 h NaN = NaN /\
     nth 31 h NaN <> Fin 0.15)
  /\ design_prototype_filter (-2) 0.15 9 = Raise IndexError.
Proof.
  split.
  - destruct (design_prototype_filter_overflow 62 0.15 1000) as (h & Hh & Hc);
      [reflexivity|discriminate|lra|exact i0_overflow_1000|].
    exists h. split; [exact Hh|].
    change (62 / 2)%nat with 31%nat in Hc. rewrite Hc. split; [reflexivity|discriminate].
  - apply design_prototype_filter_negative_even; [lia|reflexivity|lra].
Qed.

(** C6. For every even number of taps that is not negative, every cutoff
    ratio strictly between 0 and 1 and every [beta] at which [i0] does not
    overflow, [design_prototype_filter] returns exactly taps+1 values,
    none of which is NaN or infinite, and the sequence is symmetric about
    its centre: h[n] = h[taps - n] for n = 0..taps. *)
Theorem design_prototype_filter_finite_symmetric (taps : Z) (cutoff_ratio beta : R) :
  (0 <= taps)%Z ->
  (taps mod 2 = 0)%Z ->
  0 < cutoff_ratio < 1 ->
  is_finite (i0 beta) = true ->
  exists h,
    design_prototype_filter taps cutoff_ratio beta = Ok h /\
    length h = Z.to_nat (taps + 1) /\
    (forall n, (Z.of_nat n <= taps)%Z ->
       is_finite (nth n h NaN) = true /\
       nth n h NaN = nth (Z.to_nat taps - n) h NaN).
Proof.
  intros Hnn Hmod Hc Hb.
  destruct (Z_even_nonneg_nat taps Hnn Hmod) as (t & -> & Ht).
  rewrite Nat2Z.id. replace (Z.to_nat (Z.of_nat t + 1)) with (S t) by lia.
  eexists.
  split; [apply design_prototype_filter_samples; assumption|].
  rewrite length_map, length_seq. split; [reflexivity|].
  intros n Hn. rewrite !nth_map_seq by lia. split.
  - now rewrite prototype_sample_finite.
  - symmetry. apply prototype_sample_sym; [exact Ht|lia].
Qed.

Lemma design_prototype_filter_finite_symmetric_witness :
  exists h,
    design_prototype_filter 62 0.15 9 = Ok h /\
    length h = 63%nat /\
    (forall n, (Z.of_nat n <= 62)%Z ->
       is_finite (nth n h NaN) = true /\
       nth n h NaN = nth (62 - n) h NaN).
Proof.
  apply (design_prototype_filter_finite_symmetric 62 0.15 9);
    [lia|reflexivity|lra|exact i0_finite_9].
Defined.

(** With [beta = 1000.0] the filter has a value that is not finite: its
    centre coefficient is NaN. With the even number of taps -4 no value is
    returned at all. *)
Lemma design_prototype_filter_finite_counterexample :
  (exists h,
     design_prototype_filter 62 0.15 1000 = Ok h /\
     length h = 63%nat /\
     is_finite (nth 31 h NaN) = false)
  /\ design_prototype_filter (-4) 0.15 9 = Raise IndexError.
Proof.
  split.
  - exists (map (prototype_sample 62 0.15 1000) (seq 0 63)).
    split; [apply (design_prototype_filter_samples 62); [reflexivity|lra]|].
    split; [reflexivity|].
    rewrite nth_map_seq by lia. unfold prototype_sample.
    replace (kaiser_sample 62 1000 31) with (npdiv (i0 1000) (i0 1000))
      by (symmetry; apply (kaiser_sample_center 62 1000 eq_refl); discriminate).
    now rewrite i0_overflow_1000.
  - apply design_prototype_filter_negative_even; [lia|reflexivity|lra].
Qed.

(** C8. [design_prototype_filter] fails on its first assertion when taps
    is odd, fails on one of its assertions when cutoff_ratio <= 0 or
    cutoff_ratio >= 1, and returns a filter for every even number of taps
    that is not negative and every cutoff ratio strictly between 0 and 1.
    The failed assertion is the error the specification calls
    InvalidArgument. *)
Theorem design_prototype_filter_preconditions :
  (forall (taps : Z) (cutoff_ratio beta : R),
     Z.odd taps = true ->
     design_prototype_filter taps cutoff_ratio beta
     = Raise (AssertionError (Some "The number of taps mush be even number."%string)))
  /\
  (forall (taps : Z) (cutoff_ratio beta : R),
     cutoff_ratio <= 0 \/ 1 <= cutoff_ratio ->
     exists msg, design_prototype_filter taps cutoff_ratio beta
                 = Raise (AssertionError (Some msg)))
  /\
  (forall (taps : Z) (cutoff_ratio beta : R),
     (0 <= taps)%Z -> Z.even taps = true -> 0 < cutoff_ratio < 1 ->
     exists h, design_prototype_filter taps cutoff_ratio beta = Ok h).
Proof.
  split; [|split].
  - intros taps c beta Hodd. unfold design_prototype_filter.
    rewrite Zmod_odd, Hodd. reflexivity.
  - intros taps c beta Hc. unfold design_prototype_filter.
    destruct (taps mod 2 =? 0)%Z; [|eexists; reflexivity].
    rewrite py_assert_true, bind_Ok.
    assert (Hb : Rlt_b 0 c && Rlt_b c 1 = false).
    { destruct Hc as [Hc|Hc].
      - now rewrite (Rlt_b_false 0 c).
      - rewrite (Rlt_b_false c 1) by exact Hc. apply andb_false_r. }
    rewrite Hb. eexists; reflexivity.
  - intros taps c beta Hnn Heven Hc.
    assert (Hmod : (taps mod 2 = 0)%Z) by (rewrite Zmod_even, Heven; reflexivity).
    destruct (Z_even_nonneg_nat taps Hnn Hmod) as (t & -> & Ht).
    eexists. apply design_prototype_filter_samples; assumption.
Qed.

Lemma design_prototype_filter_preconditions_witness :
  design_prototype_filter 61 0.15 9
  = Raise (AssertionError (Some "The number of taps mush be even number."%string))
  /\ (exists msg, design_prototype_filter 62 1.5 9 = Raise (AssertionError (Some msg)))
  /\ (exists h, design_prototype_filter 62 0.15 9 = Ok h).
Proof.
  destruct design_prototype_filter_preconditions as (Hodd & Hcut & Hok).
  split; [|split].
  - apply Hodd. reflexivity.
  - apply Hcut. right. lra.
  - apply (Hok 62%Z); [lia|reflexivity|lra].
Defined.

(** The even number of taps -2 passes both assertions, and the call does
    not return a filter: it raises IndexError. *)
Lemma design_prototype_filter_negative_taps_counterexample :
  Z.even (-2) = true /\ 0 < 0.5 < 1 /\
  design_prototype_filter (-2) 0.5 9 = Raise IndexError.
Proof.
  split; [reflexivity|]. split; [lra|].
  apply design_prototype_filter_negative_even; [lia|reflexivity|lra].
Qed.

(** ** The filterbank built by [TFPQMF.__init__] *)

Lemma length_analysis_row h s t k :
  length h = Z.to_nat (t + 1) -> length (analysis_row h s t k) = length h.
Proof.
  intros Hh. unfold analysis_row.
  rewrite length_mul_elementwise, !length_map, length_arange. lia.
Qed.

Lemma length_synthesis_row h s t k :
  length h = Z.to_nat (t + 1) -> length (synthesis_row h s t k) = length h.
Proof.
  intros Hh. unfold synthesis_row.
  rewrite length_mul_elementwise, !length_map, length_arange. lia.
Qed.

Lemma filter_coefficients_rows (h_proto : list npfloat) (s t : nat) :
  length h_proto = S t ->
  exists h_analysis h_synthesis,
    filter_coefficients h_proto (Z.of_nat s) (Z.of_nat t) = Ok (h_analysis, h_synthesis) /\
    shape2 h_analysis = (s, S t) /\
    shape2 h_synthesis = (s, S t) /\
    (forall k n, (k < s)%nat ->
       get2 h_analysis k n
       = nth n (analysis_row h_proto (Z.of_nat s) (Z.of_nat t) (Z.of_nat k)) NaN /\
       get2 h_synthesis k n
       = nth n (synthesis_row h_proto (Z.of_nat s) (Z.of_nat t) (Z.of_nat k)) NaN).
Proof.
  intros Hlen. unfold filter_coefficients, np_zeros2.
  destruct (Z.ltb_spec (Z.of_nat s) 0) as [H|_]; [lia|].
  destruct (Z.ltb_spec (Z.of_nat (length h_proto)) 0) as [H|_]; [lia|].
  cbn [orb]. rewrite !bind_Ok, !Nat2Z.id, Hlen.
  set (P := fun (i : nat) (st : ndarray2 * ndarray2) =>
              shape2 (fst st) = (s, S t) /\ shape2 (snd st) = (s, S t) /\
              forall k n, (k < i)%nat ->
                get2 (fst st) k n
                = nth n (analysis_row h_proto (Z.of_nat s) (Z.of_nat t) (Z.of_nat k)) NaN /\
                get2 (snd st) k n
                = nth n (synthesis_row h_proto (Z.of_nat s) (Z.of_nat t) (Z.of_nat k)) NaN).
  match goal with
  | |- exists a b, for_each ?l ?body ?s0 = _ /\ _ =>
      destruct (for_each_invariant P l body s0) as ([ha hs] & Hrun & HP)
  end.
  - repeat split; intros; lia.
  - intros i [ha hs] x Hx (Ha & Hs & Hrows). cbn [fst snd] in *.
    apply nth_error_arange in Hx. destruct Hx as [-> Hi].
    unfold set_row. rewrite Ha, Hs. cbn [fst snd].
    rewrite norm_index_in_range by exact Hi.
    rewrite !bind_Ok.
    rewrite length_analysis_row, length_synthesis_row, Hlen, Nat.eqb_refl
      by (rewrite Hlen; lia).
    rewrite !bind_Ok. eexists. split; [reflexivity|].
    unfold P. cbn [fst snd get2 shape2].
    split; [reflexivity|]. split; [reflexivity|].
    intros k n Hk. destruct (Nat.eqb_spec k i) as [->|Hne]; [split; reflexivity|].
    apply Hrows. lia.
  - exists ha, hs. rewrite length_arange, Nat2Z.id in HP.
    destruct HP as (Ha & Hs & Hrows). cbn [fst snd] in *. auto.
Qed.

Lemma filter_coefficients_Ok_inv h subbands_ taps_ r :
  filter_coefficients h subbands_ taps_ = Ok r -> (0 <= subbands_)%Z.
Proof.
  unfold filter_coefficients, np_zeros2. intros H.
  destruct (Z.ltb_spec subbands_ 0); [discriminate|lia].
Qed.

Lemma make_updown_filter_entries (s : nat) :
  exists f,
    make_updown_filter (Z.of_nat s) = Ok f /\
    shape3 f = (s, s, s) /\
    (forall i j k,
       get3 f i j k
       = if ((i =? 0) && (j =? k) && (j <? s))%nat then Fin 1 else Fin 0).
Proof.
  unfold make_updown_filter, np_zeros3.
  destruct (Z.ltb_spec (Z.of_nat s) 0) as [H|_]; [lia|].
  cbn [orb]. rewrite bind_Ok, !Nat2Z.id.
  set (P := fun (n : nat) (f : ndarray3) =>
              shape3 f = (s, s, s) /\
              forall i j k,
                get3 f i j k
                = if ((i =? 0) && (j =? k) && (j <? n))%nat then Fin 1 else Fin 0).
  match goal with
  | |- exists f, for_each ?l ?body ?s0 = _ /\ _ =>
      destruct (for_each_invariant P l body s0) as (f & Hrun & HP)
  end.
  - split; [reflexivity|]. intros i j k. cbn [get3].
    rewrite Nat.ltb_irrefl || (replace (j <? 0)%nat with false by reflexivity).
    now rewrite andb_false_r.
  - intros n f x Hx (Hf & Hget).
    apply nth_error_arange in Hx. destruct Hx as [-> Hn].
    unfold set_entry. rewrite Hf.
    change 0%Z with (Z.of_nat 0).
    rewrite !norm_index_in_range by lia. rewrite !bind_Ok.
    eexists. split; [reflexivity|]. unfold P. cbn [shape3 get3].
    split; [reflexivity|]. intros i j k. rewrite Hget.
    destruct (Nat.eqb_spec i 0), (Nat.eqb_spec j n), (Nat.eqb_spec k n),
      (Nat.eqb_spec j k), (Nat.ltb_spec j n), (Nat.ltb_spec j (S n));
      cbn [andb]; try reflexivity; lia.
  - exists f. rewrite length_arange, Nat2Z.id in HP. destruct HP. auto.
Qed.

Lemma modulation_phase_nat (s t k n : nat) :
  modulation_phase (Z.of_nat s) (Z.of_nat t) (Z.of_nat k) (Z.of_nat n)
  = (2 * INR k + 1) * (PI / (2 * INR s)) * (INR n - INR t / 2).
Proof.
  unfold modulation_phase.
  rewrite plus_IZR, !mult_IZR, <- !INR_IZR_INZ. reflexivity.
Qed.

Lemma phase_offset_nat (k : nat) : phase_offset (Z.of_nat k) = (-1) ^ k * PI / 4.
Proof. unfold phase_offset. now rewrite <- pow_IZR. Qed.

Lemma modulation_phase_reverse (s t k n : nat) :
  (n <= t)%nat ->
  modulation_phase (Z.of_nat s) (Z.of_nat t) (Z.of_nat k) (Z.of_nat (t - n))
  = - modulation_phase (Z.of_nat s) (Z.of_nat t) (Z.of_nat k) (Z.of_nat n).
Proof.
  intros Hn. rewrite !modulation_phase_nat, minus_INR by exact Hn.
  replace (INR t - INR n - INR t / 2) with (- (INR n - INR t / 2)) by lra.
  ring.
Qed.

Lemma analysis_phase_reverse (s t k n : nat) :
  (n <= t)%nat -> cos (analysis_phase s t k (t - n)) = cos (synthesis_phase s t k n).
Proof.
  intros Hn. unfold analysis_phase, synthesis_phase.
  rewrite minus_INR by exact Hn.
  rewrite <- cos_neg. f_equal. lra.
Qed.

Section Rows.
Variables (s t : nat) (h_proto : list npfloat).
Hypothesis h_proto_length : length h_proto = S t.

Lemma nth_analysis_row (k n : nat) :
  (n <= t)%nat ->
  nth n (analysis_row h_proto (Z.of_nat s) (Z.of_nat t) (Z.of_nat k)) NaN
  = npmul (npmul (Fin 2) (nth n h_proto NaN)) (Fin (cos (analysis_phase s t k n))).
Proof.
  intros Hn. unfold analysis_row.
  rewrite nth_mul_elementwise
    by (rewrite ?length_map, ?length_arange; lia).
  rewrite nth_map_arange by lia.
  rewrite modulation_phase_nat, phase_offset_nat.
  f_equal. apply (map_nth (npmul (Fin 2)) h_proto NaN n).
Qed.

Lemma nth_synthesis_row (k n : nat) :
  (n <= t)%nat ->
  nth n (synthesis_row h_proto (Z.of_nat s) (Z.of_nat t) (Z.of_nat k)) NaN
  = npmul (npmul (Fin 2) (nth n h_proto NaN)) (Fin (cos (synthesis_phase s t k n))).
Proof.
  intros Hn. unfold synthesis_row.
  rewrite nth_mul_elementwise
    by (rewrite ?length_map, ?length_arange; lia).
  rewrite nth_map_arange by lia.
  rewrite modulation_phase_nat, phase_offset_nat.
  f_equal. apply (map_nth (npmul (Fin 2)) h_proto NaN n).
Qed.
End Rows.

(** The object built by [TFPQMF.__init__], in terms of its parts. *)
Lemma TFPQMF_init_built (config : Config) (s t : nat) :
  subbands config = Z.of_nat s ->
  taps config = Z.of_nat t ->
  Nat.even t = true ->
  0 < cutoff_ratio config < 1 ->
  exists h_proto h_analysis h_synthesis updown,
    design_prototype_filter (taps config) (cutoff_ratio config) (beta config)
    = Ok h_proto /\
    h_proto = map (prototype_sample t (cutoff_ratio config) (beta config)) (seq 0 (S t)) /\
    filter_coefficients h_proto (subbands config) (taps config)
    = Ok (h_analysis, h_synthesis) /\
    make_updown_filter (subbands config) = Ok updown /\
    TFPQMF_init config
    = Ok {| pqmf_subbands := Z.of_nat s;
            pqmf_taps := Z.of_nat t;
            analysis_filter := transpose_210 (expand_dims_1 h_analysis);
            synthesis_filter := transpose_210 (expand_dims_0 h_synthesis);
            updown_filter := updown |}.
Proof.
  intros Hs Ht Heven Hc.
  pose proof (design_prototype_filter_samples t _ (beta config) Heven Hc) as Hd.
  set (h := map _ _) in Hd.
  destruct (filter_coefficients_rows h s t) as (ha & hs & Hf & _);
    [unfold h; now rewrite length_map, length_seq|].
  destruct (make_updown_filter_entries s) as (u & Hu & _).
  exists h, ha, hs, u. unfold TFPQMF_init. rewrite Hs, Ht, Hd, bind_Ok, Hf, bind_Ok.
  rewrite Hu, bind_Ok. repeat split; reflexivity.
Qed.

(** Everything the claims about the filterbank need, in one statement. *)
Lemma TFPQMF_init_coefficients (config : Config) (s t : nat) :
  subbands config = Z.of_nat s ->
  taps config = Z.of_nat t ->
  Nat.even t = true ->
  0 < cutoff_ratio config < 1 ->
  exists h_proto h_analysis h_synthesis p,
    design_prototype_filter (taps config) (cutoff_ratio config) (beta config)
    = Ok h_proto /\
    filter_coefficients h_proto (subbands config) (taps config)
    = Ok (h_analysis, h_synthesis) /\
    TFPQMF_init config = Ok p /\
    pqmf_subbands p = Z.of_nat s /\
    pqmf_taps p = Z.of_nat t /\
    shape3 (analysis_filter p) = (S t, 1%nat, s) /\
    shape3 (synthesis_filter p) = (S t, s, 1%nat) /\
    shape3 (updown_filter p) = (s, s, s) /\
    (forall i j k,
       get3 (updown_filter p) i j k
       = if ((i =? 0) && (j =? k) && (j <? s))%nat then Fin 1 else Fin 0) /\
    (forall k n, (k < s)%nat -> (n <= t)%nat ->
       nth n h_proto NaN = prototype_sample t (cutoff_ratio config) (beta config) n /\
       get2 h_analysis k n
       = npmul (npmul (Fin 2) (nth n h_proto NaN)) (Fin (cos (analysis_phase s t k n))) /\
       get2 h_synthesis k n
       = npmul (npmul (Fin 2) (nth n h_proto NaN)) (Fin (cos (synthesis_phase s t k n))) /\
       get3 (analysis_filter p) n 0 k = get2 h_analysis k n /\
       get3 (synthesis_filter p) n k 0 = get2 h_synthesis k n).
Proof.
  intros Hs Ht Heven Hc.
  destruct (TFPQMF_init_built config s t Hs Ht Heven Hc)
    as (h & ha & hs & u & Hd & Hh & Hf & Hu & Hinit).
  exists h, ha, hs. eexists.
  split; [exact Hd|]. split; [exact Hf|]. split; [exact Hinit|].
  cbn [pqmf_subbands pqmf_taps analysis_filter synthesis_filter updown_filter].
  rewrite Hs, Ht in Hf. rewrite Hs in Hu.
  assert (Hlen : length h = S t) by (rewrite Hh; now rewrite length_map, length_seq).
  destruct (filter_coefficients_rows h s t Hlen) as (ha' & hs' & Hf' & Hsa & Hss & Hrows).
  rewrite Hf in Hf'. injection Hf' as <- <-.
  destruct (make_updown_filter_entries s) as (u' & Hu' & Hsu & Hent).
  rewrite Hu in Hu'. injection Hu' as <-.
  split; [reflexivity|]. split; [reflexivity|].
  unfold transpose_210, expand_dims_1, expand_dims_0. rewrite Hsa, Hss.
  cbn [shape3 get3].
  split; [reflexivity|]. split; [reflexivity|]. split; [exact Hsu|].
  split; [exact Hent|].
  intros k n Hk Hn.
  destruct (Hrows k n Hk) as [Hra Hrs].
  rewrite Hra, Hrs, (nth_analysis_row s t h Hlen), (nth_synthesis_row s t h Hlen)
    by exact Hn.
  split; [|repeat split; reflexivity].
  rewrite Hh. now rewrite nth_map_seq by lia.
Qed.

(** What is known of a filterbank that [TFPQMF.__init__] returned. *)
Lemma TFPQMF_init_Ok_inv (config : Config) (p : TFPQMF) :
  TFPQMF_init config = Ok p ->
  exists s t,
    subbands config = Z.of_nat s /\ taps config = Z.of_nat t /\
    Nat.even t = true /\ 0 < cutoff_ratio config < 1 /\
    pqmf_subbands p = Z.of_nat s /\ pqmf_taps p = Z.of_nat t /\
    shape3 (analysis_filter p) = (S t, 1%nat, s) /\
    shape3 (synthesis_filter p) = (S t, s, 1%nat) /\
    shape3 (updown_filter p) = (s, s, s).
Proof.
  intros Hinit. pose proof Hinit as H. unfold TFPQMF_init in H.
  apply bind_Ok_inv in H. destruct H as (h & Hd & H).
  apply bind_Ok_inv in H. destruct H as (hh & Hf & _).
  apply design_prototype_filter_Ok_inv in Hd. destruct Hd as (t & Ht & Heven & Hc).
  apply filter_coefficients_Ok_inv in Hf.
  exists (Z.to_nat (subbands config)), t.
  assert (Hs : subbands config = Z.of_nat (Z.to_nat (subbands config))) by lia.
  destruct (TFPQMF_init_coefficients config _ t Hs Ht Heven Hc)
    as (_ & _ & _ & p' & _ & _ & Hinit' & H1 & H2 & H3 & H4 & H5 & _).
  rewrite Hinit in Hinit'. injection Hinit' as <-. auto 10.
Qed.

Lemma example_cutoff_ratio : 0 < cutoff_ratio example_config < 1.
Proof. cbn. lra. Qed.

Lemma TFPQMF_init_example : exists p, TFPQMF_init example_config = Ok p.
Proof.
  destruct (TFPQMF_init_coefficients example_config 4 62 eq_refl eq_refl eq_refl
              example_cutoff_ratio) as (_ & _ & _ & p & _ & _ & Hinit & _).
  now exists p.
Qed.

(** C2. For every sub-band k < subbands and every tap n <= taps, the
    arrays built by [TFPQMF.__init__] satisfy
    h_analysis[k][n] = 2 h_proto[n] cos((2k+1) (pi/(2 subbands)) (n - taps/2) + (-1)^k pi/4)
    and
    h_synthesis[k][n] = 2 h_proto[n] cos((2k+1) (pi/(2 subbands)) (n - taps/2) - (-1)^k pi/4),
    where h_proto is the prototype filter: the two differ only in the sign
    of the phase offset. The stored filters hold these values at
    [n, 0, k] (analysis) and [n, k, 0] (synthesis). The two equations hold
    in the arithmetic of the code whatever [beta] is; when [i0(beta)] does
    not overflow, h_proto[n] is a real number h_n and the two coefficients
    are the real numbers 2 h_n cos(...). *)
Theorem TFPQMF_init_cosine_modulation (config : Config) (subbands_ taps_ : nat) :
  subbands config = Z.of_nat subbands_ ->
  taps config = Z.of_nat taps_ ->
  Nat.even taps_ = true ->
  0 < cutoff_ratio config < 1 ->
  exists h_proto h_analysis h_synthesis p,
    design_prototype_filter (taps config) (cutoff_ratio config) (beta config)
    = Ok h_proto /\
    filter_coefficients h_proto (subbands config) (taps config)
    = Ok (h_analysis, h_synthesis) /\
    TFPQMF_init config = Ok p /\
    forall k n, (k < subbands_)%nat -> (n <= taps_)%nat ->
      get2 h_analysis k n
      = npmul (npmul (Fin 2) (nth n h_proto NaN))
              (Fin (cos ((2 * INR k + 1) * (PI / (2 * INR subbands_))
                         * (INR n - INR taps_ / 2)
                         + (-1) ^ k * PI / 4))) /\
      get2 h_synthesis k n
      = npmul (npmul (Fin 2) (nth n h_proto NaN))
              (Fin (cos ((2 * INR k + 1) * (PI / (2 * INR subbands_))
                         * (INR n - INR taps_ / 2)
                         - (-1) ^ k * PI / 4))) /\
      get3 (analysis_filter p) n 0 k = get2 h_analysis k n /\
      get3 (synthesis_filter p) n k 0 = get2 h_synthesis k n /\
      (is_finite (i0 (beta config)) = true ->
       exists h_n,
         nth n h_proto NaN = Fin h_n /\
         get2 h_analysis k n
         = Fin (2 * h_n
                * cos ((2 * INR k + 1) * (PI / (2 * INR subbands_))
                       * (INR n - INR taps_ / 2)
                       + (-1) ^ k * PI / 4)) /\
         get2 h_synthesis k n
         = Fin (2 * h_n
                * cos ((2 * INR k + 1) * (PI / (2 * INR subbands_))
                       * (INR n - INR taps_ / 2)
                       - (-1) ^ k * PI / 4))).
Proof.
  intros Hs Ht Heven Hc.
  destruct (TFPQMF_init_coefficients config subbands_ taps_ Hs Ht Heven Hc)
    as (h & ha & hs & p & Hd & Hf & Hinit & _ & _ & _ & _ & _ & _ & Hcoef).
  exists h, ha, hs, p. repeat (split; [assumption|]).
  intros k n Hk Hn. destruct (Hcoef k n Hk Hn) as (H1 & H2 & H3 & H4 & H5).
  split; [exact H2|]. split; [exact H3|]. split; [exact H4|]. split; [exact H5|].
  intros Hb. rewrite prototype_sample_finite in H1 by exact Hb.
  eexists. split; [exact H1|].
  rewrite H2, H3, H1. split; reflexivity.
Qed.

Lemma TFPQMF_init_cosine_modulation_witness :
  exists h_proto h_analysis h_synthesis p,
    design_prototype_filter 62 0.15 9 = Ok h_proto /\
    filter_coefficients h_proto 4 62 = Ok (h_analysis, h_synthesis) /\
    TFPQMF_init example_config = Ok p /\
    forall k n, (k < 4)%nat -> (n <= 62)%nat ->
      get2 h_analysis k n
      = npmul (npmul (Fin 2) (nth n h_proto NaN))
              (Fin (cos ((2 * INR k + 1) * (PI / (2 * INR 4)) * (INR n - INR 62 / 2)
                         + (-1) ^ k * PI / 4))) /\
      get2 h_synthesis k n
      = npmul (npmul (Fin 2) (nth n h_proto NaN))
              (Fin (cos ((2 * INR k + 1) * (PI / (2 * INR 4)) * (INR n - INR 62 / 2)
                         - (-1) ^ k * PI / 4))) /\
      get3 (analysis_filter p) n 0 k = get2 h_analysis k n /\
      get3 (synthesis_filter p) n k 0 = get2 h_synthesis k n /\
      exists h_n,
        nth n h_proto NaN = Fin h_n /\
        get2 h_analysis k n
        = Fin (2 * h_n
               * cos ((2 * INR k + 1) * (PI / (2 * INR 4)) * (INR n - INR 62 / 2)
                      + (-1) ^ k * PI / 4)) /\
        get2 h_synthesis k n
        = Fin (2 * h_n
               * cos ((2 * INR k + 1) * (PI / (2 * INR 4)) * (INR n - INR 62 / 2)
                      - (-1) ^ k * PI / 4)).
Proof.
  destruct (TFPQMF_init_cosine_modulation example_config 4 62)
    as (h & ha & hs & p & Hd & Hf & Hinit & Hcoef);
    [reflexivity|reflexivity|reflexivity|cbn; lra|].
  exists h, ha, hs, p. repeat (split; [assumption|]).
  intros k n Hk Hn. destruct (Hcoef k n Hk Hn) as (H1 & H2 & H3 & H4 & H5).
  repeat (split; [assumption|]). apply H5. exact i0_finite_9.
Defined.

(** C10. For every number of sub-bands, every even number of taps and
    every cutoff ratio strictly between 0 and 1, each synthesis filter is
    the time reversal of the analysis filter of the same sub-band:
    h_synthesis[k][n] = h_analysis[k][taps - n] for k < subbands and
    n <= taps, and likewise for the stored filter tensors. *)
Theorem TFPQMF_init_synthesis_is_reversed_analysis
    (config : Config) (subbands_ taps_ : nat) :
  subbands config = Z.of_nat subbands_ ->
  taps config = Z.of_nat taps_ ->
  Nat.even taps_ = true ->
  0 < cutoff_ratio config < 1 ->
  exists h_proto h_analysis h_synthesis p,
    design_prototype_filter (taps config) (cutoff_ratio config) (beta config)
    = Ok h_proto /\
    filter_coefficients h_proto (subbands config) (taps config)
    = Ok (h_analysis, h_synthesis) /\
    TFPQMF_init config = Ok p /\
    forall k n, (k < subbands_)%nat -> (n <= taps_)%nat ->
      get2 h_synthesis k n = get2 h_analysis k (taps_ - n) /\
      get3 (synthesis_filter p) n k 0 = get3 (analysis_filter p) (taps_ - n) 0 k.
Proof.
  intros Hs Ht Heven Hc.
  destruct (TFPQMF_init_coefficients config subbands_ taps_ Hs Ht Heven Hc)
    as (h & ha & hs & p & Hd & Hf & Hinit & _ & _ & _ & _ & _ & _ & Hcoef).
  exists h, ha, hs, p. repeat (split; [assumption|]).
  intros k n Hk Hn.
  destruct (Hcoef k n Hk Hn) as (Hhn & _ & Hsn & _ & Hfs).
  destruct (Hcoef k (taps_ - n)%nat Hk ltac:(lia)) as (Hhr & Han & _ & Hfa & _).
  assert (E : get2 hs k n = get2 ha k (taps_ - n)).
  { rewrite Hsn, Han, Hhn, Hhr, prototype_sample_sym, analysis_phase_reverse
      by assumption.
    reflexivity. }
  split; [exact E|]. now rewrite Hfs, Hfa.
Qed.

Lemma TFPQMF_init_synthesis_is_reversed_analysis_witness :
  exists h_proto h_analysis h_synthesis p,
    design_prototype_filter 62 0.15 9 = Ok h_proto /\
    filter_coefficients h_proto 4 62 = Ok (h_analysis, h_synthesis) /\
    TFPQMF_init example_config = Ok p /\
    forall k n, (k < 4)%nat -> (n <= 62)%nat ->
      get2 h_synthesis k n = get2 h_analysis k (62 - n) /\
      get3 (synthesis_filter p) n k 0 = get3 (analysis_filter p) (62 - n) 0 k.
Proof.
  apply (TFPQMF_init_synthesis_is_reversed_analysis example_config 4 62);
    [reflexivity|reflexivity|reflexivity|cbn; lra].
Defined.

Lemma nonzero_positions_updown (u : ndarray3) (s : nat) :
  shape3 u = (s, s, s) ->
  (forall i j k,
     get3 u i j k = if ((i =? 0) && (j =? k) && (j <? s))%nat then Fin 1 else Fin 0) ->
  nonzero_positions u
  = filter (fun '(i, j, k) => ((i =? 0) && (j =? k) && (j <? s))%nat) (indices3 (s, s, s)).
Proof.
  intros Hs Hent. unfold nonzero_positions. rewrite Hs.
  apply filter_ext. intros [[i j] k]. rewrite Hent.
  destruct ((i =? 0) && (j =? k) && (j <? s))%nat;
    [apply is_nonzero_one|apply is_nonzero_zero].
Qed.

(** C7. For subbands = 4, taps = 62, cutoff_ratio = 0.15 and beta = 9.0,
    [TFPQMF.__init__] builds an analysis filter of shape (63, 1, 4), a
    synthesis filter of shape (63, 4, 1) and a routing filter of shape
    (4, 4, 4) whose non-zero entries are exactly the four entries at
    [0,0,0], [0,1,1], [0,2,2], [0,3,3], each equal to 1.0; all other
    entries are 0. *)
Theorem TFPQMF_init_tensor_shapes (config : Config) :
  subbands config = 4%Z ->
  taps config = 62%Z ->
  cutoff_ratio config = 0.15 ->
  beta config = 9 ->
  exists p,
    TFPQMF_init config = Ok p /\
    shape3 (analysis_filter p) = (63, 1, 4)%nat /\
    shape3 (synthesis_filter p) = (63, 4, 1)%nat /\
    shape3 (updown_filter p) = (4, 4, 4)%nat /\
    nonzero_positions (updown_filter p)
    = [(0, 0, 0); (0, 1, 1); (0, 2, 2); (0, 3, 3)]%nat /\
    (forall i j k, (i < 4)%nat -> (j < 4)%nat -> (k < 4)%nat ->
       get3 (updown_filter p) i j k
       = if ((i =? 0) && (j =? k))%nat then Fin 1 else Fin 0).
Proof.
  intros Hs Ht Hc Hb.
  destruct (TFPQMF_init_coefficients config 4 62 Hs Ht eq_refl)
    as (h & ha & hs & p & _ & _ & Hinit & _ & _ & Hsa & Hss & Hsu & Hent & _).
  { rewrite Hc. lra. }
  exists p. repeat (split; [assumption|]).
  split.
  - rewrite (nonzero_positions_updown _ 4 Hsu Hent). reflexivity.
  - intros i j k Hi Hj Hk. rewrite Hent.
    destruct (Nat.ltb_spec j 4) as [_|H]; [|lia]. now rewrite andb_true_r.
Qed.

Lemma TFPQMF_init_tensor_shapes_witness :
  exists p,
    TFPQMF_init example_config = Ok p /\
    shape3 (analysis_filter p) = (63, 1, 4)%nat /\
    shape3 (synthesis_filter p) = (63, 4, 1)%nat /\
    shape3 (updown_filter p) = (4, 4, 4)%nat /\
    nonzero_positions (updown_filter p)
    = [(0, 0, 0); (0, 1, 1); (0, 2, 2); (0, 3, 3)]%nat /\
    (forall i j k, (i < 4)%nat -> (j < 4)%nat -> (k < 4)%nat ->
       get3 (updown_filter p) i j k
       = if ((i =? 0) && (j =? k))%nat then Fin 1 else Fin 0).
Proof.
  apply (TFPQMF_init_tensor_shapes example_config); reflexivity.
Defined.

(** ** Shapes through [analysis] and [synthesis] *)

Lemma tf_pad_time_ok (b t c p : nat) :
  tf_pad_time (b, t, c) (Z.of_nat p) (Z.of_nat p) = Ok (b, (t + 2 * p)%nat, c).
Proof.
  unfold tf_pad_time. destruct (Z.ltb_spec (Z.of_nat p) 0); [lia|].
  cbn [orb]. do 3 f_equal. lia.
Qed.

Lemma tf_conv1d_valid_stride1 (b t c w o : nat) :
  (w <= t + 1)%nat ->
  tf_conv1d_valid (b, t, c) (w, c, o) 1 = Ok (b, (t + 1 - w)%nat, o).
Proof.
  intros Hw. unfold tf_conv1d_valid. cbn [Z.leb Z.compare].
  rewrite Nat.eqb_refl. cbn [negb]. rewrite Z.quot_1_r.
  destruct (Z.ltb_spec (Z.of_nat t - Z.of_nat w + 1) 0); [lia|].
  do 3 f_equal. lia.
Qed.

Lemma tf_conv1d_valid_decimate (b t s : nat) :
  (1 <= s)%nat ->
  tf_conv1d_valid (b, t, s) (s, s, s) (Z.of_nat s) = Ok (b, (t / s)%nat, s).
Proof.
  intros Hs. unfold tf_conv1d_valid.
  destruct (Z.leb_spec (Z.of_nat s) 0); [lia|].
  rewrite Nat.eqb_refl. cbn [negb].
  replace (Z.of_nat t - Z.of_nat s + Z.of_nat s)%Z with (Z.of_nat t) by lia.
  rewrite Z.quot_div_nonneg by lia. rewrite <- Nat2Z.inj_div.
  destruct (Z.ltb_spec (Z.of_nat (t / s)) 0); [lia|].
  now rewrite Nat2Z.id.
Qed.

Lemma tf_conv1d_transpose_interpolate (b t s : nat) :
  (1 <= s)%nat ->
  tf_conv1d_transpose (b, t, s) (s, s, s)
    (Z.of_nat b, Z.of_nat t * Z.of_nat s, Z.of_nat s)%Z (Z.of_nat s)
  = Ok (b, (t * s)%nat, s).
Proof.
  intros Hs. unfold tf_conv1d_transpose.
  destruct (Z.leb_spec (Z.of_nat s) 0); [lia|].
  rewrite Nat.eqb_refl, !Z.eqb_refl. cbn [negb andb].
  destruct (Z.leb_spec 0 (Z.of_nat t * Z.of_nat s)); [|lia]. cbn [negb].
  assert (E : ((Z.of_nat t * Z.of_nat s + Z.of_nat s - 1) / Z.of_nat s)%Z = Z.of_nat t).
  { replace (Z.of_nat t * Z.of_nat s + Z.of_nat s - 1)%Z
      with (Z.of_nat t * Z.of_nat s + (Z.of_nat s - 1))%Z by lia.
    rewrite Z.div_add_l by lia. rewrite (Z.div_small (Z.of_nat s - 1)) by lia. lia. }
  rewrite E, Z.eqb_refl. cbn [negb].
  rewrite !Nat2Z.id. do 3 f_equal. lia.
Qed.

Lemma analysis_and_synthesis_shapes (config : Config) (p : TFPQMF) (b t : nat) :
  TFPQMF_init config = Ok p ->
  (1 <= subbands config)%Z ->
  let s := Z.to_nat (subbands config) in
  analysis p (b, t, 1%nat) = Ok (b, (t / s)%nat, s) /\
  synthesis p (b, t, s) = Ok (b, (t * s)%nat, 1%nat).
Proof.
  intros Hinit Hs1. cbv zeta.
  destruct (TFPQMF_init_Ok_inv config p Hinit)
    as (s & tp & Hs & Ht & Heven & _ & Hps & Hpt & Hsa & Hss & Hsu).
  destruct (even_half tp Heven) as (m & Htm & _ & Hdiv & _).
  rewrite Hs, Nat2Z.id. assert (Hs' : (1 <= s)%nat) by lia.
  unfold analysis, synthesis. rewrite Hps, Hpt, Hsa, Hss, Hsu, Hdiv.
  cbn [Nat.eqb negb]. split.
  - rewrite tf_pad_time_ok, bind_Ok.
    rewrite tf_conv1d_valid_stride1, bind_Ok by lia.
    replace (t + 2 * m + 1 - S tp)%nat with t by lia.
    now rewrite tf_conv1d_valid_decimate, bind_Ok.
  - rewrite tf_conv1d_transpose_interpolate, bind_Ok by exact Hs'.
    rewrite tf_pad_time_ok, bind_Ok.
    rewrite tf_conv1d_valid_stride1 by lia.
    do 3 f_equal. lia.
Qed.

(** C3, as the code has it. For a filterbank built by [TFPQMF.__init__]
    with at least one sub-band, [analysis] maps an input of shape
    (batch, T, 1) to shape (batch, floor(T / subbands), subbands): the
    padding by taps/2 on each side is consumed by the filter of length
    taps+1, so taps does not enter the length. [synthesis] maps an input
    of shape (batch, T', subbands) to shape (batch, T' * subbands, 1). *)
Theorem PQMF_shape_contract (config : Config) (p : TFPQMF) (batch T T' : nat) :
  TFPQMF_init config = Ok p ->
  (1 <= subbands config)%Z ->
  analysis p (batch, T, 1%nat)
  = Ok (batch, (T / Z.to_nat (subbands config))%nat, Z.to_nat (subbands config)) /\
  synthesis p (batch, T', Z.to_nat (subbands config))
  = Ok (batch, (T' * Z.to_nat (subbands config))%nat, 1%nat).
Proof.
  intros Hinit Hs. split.
  - apply (analysis_and_synthesis_shapes config p batch T Hinit Hs).
  - apply (analysis_and_synthesis_shapes config p batch T' Hinit Hs).
Qed.

Lemma PQMF_shape_contract_witness :
  exists p,
    TFPQMF_init example_config = Ok p /\
    analysis p (1, 100, 1)%nat = Ok (1, 25, 4)%nat /\
    synthesis p (1, 25, 4)%nat = Ok (1, 100, 1)%nat.
Proof.
  destruct TFPQMF_init_example as [p Hp]. exists p. split; [exact Hp|].
  apply (PQMF_shape_contract example_config p 1 100 25 Hp). cbn. lia.
Defined.

(** The analysis of a signal of length 100 with taps = 62 and four
    sub-bands has length 25 = 100 / 4, not (100 + 62) / 4 = 40. *)
Lemma analysis_length_counterexample :
  exists p,
    TFPQMF_init example_config = Ok p /\
    analysis p (1, 100, 1)%nat = Ok (1, 25, 4)%nat /\
    (25 <> (100 + 62) / 4)%nat.
Proof.
  destruct TFPQMF_init_example as [p Hp]. exists p. split; [exact Hp|]. split.
  - apply (analysis_and_synthesis_shapes example_config p 1 100 Hp). cbn. lia.
  - cbn. lia.
Qed.

(** ** The checks of [MBMelGANGenerator.__init__] *)







Lemma np_prod_example : np_prod [8; 8; 4]%Z = 256%Z.
Proof. reflexivity. Qed.

(** Beyond 64 bits the product wraps around. *)
Remark np_prod_wraps_around : np_prod [2 ^ 32; 2 ^ 32]%Z = 0%Z.
Proof. reflexivity. Qed.

Lemma bind_no_config_error {A B} (m : result A) (k : A -> result B) :
  m <> Raise config_error -> (forall a, k a <> Raise config_error) ->
  bind m k <> Raise config_error.
Proof. intros Hm Hk. destruct m as [a|e]; simpl; [apply Hk|congruence]. Qed.

Lemma for_each_no_config_error {A S} (l : list A) (body : S -> A -> result S) s :
  (forall s x, body s x <> Raise config_error) ->
  for_each l body s <> Raise config_error.
Proof.
  intros Hb. revert s. induction l as [|x l IH]; intros s; simpl; [discriminate|].
  apply bind_no_config_error; auto.
Qed.

(** A branching computation none of whose branches raises the
    configuration error. *)
Ltac other_exception :=
  repeat match goal with
         | |- context [if ?b then _ else _] => destruct b
         end;
  discriminate.

Lemma norm_index_no_config_error i len : norm_index i len <> Raise config_error.
Proof. unfold norm_index. other_exception. Qed.

Lemma set_row_no_config_error a k row : set_row a k row <> Raise config_error.
Proof.
  unfold set_row. apply bind_no_config_error; [apply norm_index_no_config_error|].
  intros k'. other_exception.
Qed.

Lemma set_entry_no_config_error a i j k v : set_entry a i j k v <> Raise config_error.
Proof.
  unfold set_entry. destruct (shape3 a) as [[d0 d1] d2].
  repeat (apply bind_no_config_error; [apply norm_index_no_config_error|intros ?]).
  discriminate.
Qed.

Lemma design_prototype_filter_no_config_error taps c beta :
  design_prototype_filter taps c beta <> Raise config_error.
Proof.
  unfold design_prototype_filter.
  apply bind_no_config_error; [unfold py_assert; other_exception|intros _].
  apply bind_no_config_error; [unfold py_assert; other_exception|intros _].
  apply bind_no_config_error; [unfold setitem; other_exception|intros h_i].
  apply bind_no_config_error; [unfold kaiser; other_exception|discriminate].
Qed.

Lemma TFPQMF_init_no_config_error config : TFPQMF_init config <> Raise config_error.
Proof.
  unfold TFPQMF_init.
  apply bind_no_config_error; [apply design_prototype_filter_no_config_error|].
  intros h. apply bind_no_config_error.
  { unfold filter_coefficients.
    apply bind_no_config_error; [unfold np_zeros2; other_exception|intros ha].
    apply bind_no_config_error; [unfold np_zeros2; other_exception|intros hs].
    apply for_each_no_config_error. intros [a s] k.
    apply bind_no_config_error; [apply set_row_no_config_error|intros ?].
    apply bind_no_config_error; [apply set_row_no_config_error|discriminate]. }
  intros [ha hs]. apply bind_no_config_error; [|discriminate].
  unfold make_updown_filter.
  apply bind_no_config_error; [unfold np_zeros3; other_exception|intros u].
  apply for_each_no_config_error. intros. apply set_entry_no_config_error.
Qed.







Lemma MBMelGANGenerator_init_Ok_inv (config : Config) (g : MBMelGANGenerator) :
  MBMelGANGenerator_init config = Ok g ->
  melgan g = generator_layers config /\ TFPQMF_init config = Ok (pqmf g).
Proof.
  unfold MBMelGANGenerator_init. intros H.
  apply bind_Ok_inv in H. destruct H as ([] & _ & H).
  apply bind_Ok_inv in H. destruct H as ([] & _ & H).
  apply bind_Ok_inv in H. destruct H as (p & Hp & H).
  injection H as <-. auto.
Qed.

Lemma MBMelGANGenerator_init_example :
  exists g, MBMelGANGenerator_init example_config = Ok g.
Proof.
  destruct TFPQMF_init_example as [p Hp].
  exists {| melgan := generator_layers example_config; pqmf := p |}.
  unfold MBMelGANGenerator_init.
  change (np_prod (upsample_scales example_config)) with (np_prod [8; 8; 4]%Z).
  rewrite np_prod_example. cbn [filters example_config Z.leb Z.compare Pos.compare Pos.compare_cont].
  rewrite py_assert_true, bind_Ok.
  change (filters example_config mod 2 ^ Z.of_nat (length (upsample_scales example_config)) =? 0)%Z
    with true.
  rewrite py_assert_true, bind_Ok, Hp. reflexivity.
Qed.

(** ** Shapes through the generator *)

Lemma call_sequential_app l1 l2 x :
  call_sequential (l1 ++ l2) x
  = (y <- call_sequential l1 x ;; call_sequential l2 y).
Proof. apply for_each_app. Qed.

Lemma call_residual_stacks (f : Z -> layer) (js : list Z) (x : shape) :
  (forall j, exists a b c d e g h i, f j = TFResidualStack a b c d e g h i) ->
  call_sequential (map f js) x = Ok x.
Proof.
  intros Hf. induction js as [|j js IH]; simpl; [reflexivity|].
  destruct (Hf j) as (a & b & c & d & e & g & h & i & ->). simpl. exact IH.
Qed.

Lemma call_upsample_stage (config : Config) (i scale : Z) (b t c : nat) :
  (0 <= scale)%Z ->
  call_sequential (upsample_stage config i scale) (b, t, c)
  = Ok (b, (t * Z.to_nat scale)%nat, Z.to_nat (filters config / 2 ^ (i + 1))).
Proof.
  intros Hs. unfold upsample_stage. rewrite call_sequential_app.
  cbn [call_sequential for_each call_layer]. rewrite !bind_Ok.
  rewrite call_residual_stacks by (intros j; repeat eexists).
  do 3 f_equal. lia.
Qed.

Lemma call_upsample_stages (config : Config) (stages : list (Z * Z)) (b t c : nat) :
  Forall (fun s => 0 < s)%Z (map snd stages) ->
  exists c',
    call_sequential
      (flat_map (fun '(i, upsample_scale) => upsample_stage config i upsample_scale)
                stages)
      (b, t, c)
    = Ok (b, (t * Z.to_nat (product (map snd stages)))%nat, c').
Proof.
  revert t c. induction stages as [|[i sc] stages IH]; intros t c Hpos.
  - exists c. cbn. do 3 f_equal. lia.
  - cbn [map snd flat_map] in *. inversion Hpos as [|? ? Hsc Hrest]; subst.
    rewrite call_sequential_app, call_upsample_stage, bind_Ok by lia.
    destruct (IH (t * Z.to_nat sc)%nat (Z.to_nat (filters config / 2 ^ (i + 1))) Hrest)
      as [c' Hc'].
    exists c'. rewrite Hc'. do 3 f_equal. cbn [product fold_right].
    assert (Hp : (0 <= product (map snd stages))%Z).
    { clear -Hrest. induction Hrest; cbn; [lia|]. fold (product l). lia. }
    fold (product (map snd stages)). rewrite Z2Nat.inj_mul by lia. lia.
Qed.

Lemma call_conv_block (b t c : nat) (k f : Z) (pt : string) (ub : bool) (seed : Z) :
  Z.odd k = true -> (0 < k)%Z ->
  call_sequential [TFReflectionPad1d ((k - 1) / 2)%Z pt; Conv1D f k ub seed] (b, t, c)
  = Ok (b, t, Z.to_nat f).
Proof.
  intros Hodd Hpos.
  assert (Hk : exists K : nat, k = (2 * Z.of_nat K + 1)%Z).
  { exists (Z.to_nat (k / 2)). pose proof (Zmod_odd k) as Hm. rewrite Hodd in Hm.
    pose proof (Z.div_mod k 2). pose proof (Z.div_pos k 2). lia. }
  destruct Hk as [K ->].
  replace ((2 * Z.of_nat K + 1 - 1) / 2)%Z with (Z.of_nat K)
    by (replace (2 * Z.of_nat K + 1 - 1)%Z with (Z.of_nat K * 2)%Z by lia;
        now rewrite Z.div_mul).
  cbn [call_sequential for_each call_layer].
  rewrite tf_pad_time_ok, bind_Ok.
  replace (Z.to_nat (2 * Z.of_nat K + 1)) with (2 * K + 1)%nat by lia.
  rewrite tf_conv1d_valid_stride1, bind_Ok by lia.
  do 3 f_equal. lia.
Qed.

Lemma call_sequential_activation name params l x :
  call_sequential (NonlinearActivation name params :: l) x = call_sequential l x.
Proof. reflexivity. Qed.

Lemma call_generator_layers (config : Config) (b t c : nat) :
  Z.odd (kernel_size config) = true ->
  (0 < kernel_size config)%Z ->
  Forall (fun s => 0 < s)%Z (upsample_scales config) ->
  call_sequential (generator_layers config) (b, t, c)
  = Ok (b, (t * Z.to_nat (product (upsample_scales config)))%nat,
        Z.to_nat (out_channels config)).
Proof.
  intros Hodd Hpos Hscales. unfold generator_layers.
  rewrite call_sequential_app, call_conv_block, bind_Ok by assumption.
  destruct (call_upsample_stages config (enumerate (upsample_scales config))
              b t (Z.to_nat (filters config))) as [c' Hc'].
  { now rewrite map_snd_enumerate. }
  rewrite map_snd_enumerate in Hc'.
  rewrite call_sequential_app, Hc', bind_Ok.
  rewrite call_sequential_app, call_sequential_activation.
  rewrite call_conv_block, bind_Ok by assumption.
  destruct (use_final_nolinear_activation config); reflexivity.
Qed.

Lemma inference_shape (config : Config) (g : MBMelGANGenerator) (b t : nat) :
  MBMelGANGenerator_init config = Ok g ->
  Z.odd (kernel_size config) = true ->
  (0 < kernel_size config)%Z ->
  Forall (fun s => 0 < s)%Z (upsample_scales config) ->
  out_channels config = subbands config ->
  (1 <= subbands config)%Z ->
  inference g (b, t, 80%nat)
  = Ok (b,
        (t * Z.to_nat (product (upsample_scales config))
           * Z.to_nat (subbands config))%nat,
        1%nat).
Proof.
  intros Hinit Hodd Hpos Hscales Hout Hsub.
  apply MBMelGANGenerator_init_Ok_inv in Hinit. destruct Hinit as [Hm Hp].
  unfold inference. cbn [Nat.eqb negb]. rewrite Hm.
  rewrite call_generator_layers, bind_Ok by assumption.
  rewrite Hout.
  apply (analysis_and_synthesis_shapes config (pqmf g) b _ Hp Hsub).
Qed.

(** C4, as the code has it. For a generator built from a configuration
    with an odd kernel size, positive upsampling scales and
    out_channels = subbands >= 1, [inference] maps a mel input of shape
    (batch, T, 80) to a waveform of shape
    (batch, T * prod(upsample_scales) * subbands, 1): the synthesis
    filterbank multiplies the time length by subbands once more and merges
    the sub-bands into one channel. *)
Theorem inference_output_shape
    (config : Config) (g : MBMelGANGenerator) (batch T : nat) :
  MBMelGANGenerator_init config = Ok g ->
  Z.odd (kernel_size config) = true ->
  (0 < kernel_size config)%Z ->
  Forall (fun s => 0 < s)%Z (upsample_scales config) ->
  out_channels config = subbands config ->
  (1 <= subbands config)%Z ->
  inference g (batch, T, 80%nat)
  = Ok (batch,
        (T * Z.to_nat (product (upsample_scales config))
           * Z.to_nat (subbands config))%nat,
        1%nat).
Proof. apply inference_shape. Qed.

Lemma inference_output_shape_witness :
  exists g,
    MBMelGANGenerator_init example_config = Ok g /\
    inference g (1, 100, 80)%nat = Ok (1, 100 * 256 * 4, 1)%nat.
Proof.
  destruct MBMelGANGenerator_init_example as [g Hg]. exists g.
  split; [exact Hg|].
  apply (inference_output_shape example_config g 1 100 Hg).
  - reflexivity.
  - reflexivity.
  - repeat constructor.
  - reflexivity.
  - cbn. lia.
Defined.

(** With upsample_scales = [8, 8, 4], four sub-bands and a mel input of
    100 frames, the waveform has 100 * 256 * 4 samples, not 100 * 256,
    and one channel, not out_channels = 4. *)
Lemma inference_length_counterexample :
  exists g,
    MBMelGANGenerator_init example_config = Ok g /\
    upsample_scales example_config = [8; 8; 4]%Z /\
    inference g (1, 100, 80)%nat = Ok (1, 100 * 256 * 4, 1)%nat /\
    (100 * 256 * 4 <> 100 * 256)%nat /\
    (1 <> Z.to_nat (out_channels example_config))%nat.
Proof.
  destruct MBMelGANGenerator_init_example as [g Hg]. exists g.
  split; [exact Hg|]. split; [reflexivity|]. split; [|split].
  - apply (inference_shape example_config g 1 100 Hg);
      try reflexivity; [repeat constructor|cbn; lia].
  - lia.
  - cbn. lia.
Qed.

(** * Further properties *)

(** ** Further properties of the prototype filter *)

(** X1. The outcomes of [design_prototype_filter], in the order the code
    checks them: an odd taps fails the first assertion whatever the cutoff
    ratio; an even taps with a cutoff ratio outside (0, 1) fails the second
    assertion; a negative even taps passes both and raises IndexError at
    the assignment to the centre of the empty array; the call returns a
    filter exactly when taps is even and non-negative and the cutoff ratio
    is strictly between 0 and 1. *)
Theorem design_prototype_filter_outcomes (taps : Z) (cutoff_ratio beta : R) :
  ((taps mod 2 <> 0)%Z ->
   design_prototype_filter taps cutoff_ratio beta
   = Raise (AssertionError (Some "The number of taps mush be even number."%string)))
  /\
  ((taps mod 2 = 0)%Z -> ~ (0 < cutoff_ratio < 1) ->
   design_prototype_filter taps cutoff_ratio beta
   = Raise (AssertionError (Some "Cutoff ratio must be > 0.0 and < 1.0."%string)))
  /\
  ((taps mod 2 = 0)%Z -> 0 < cutoff_ratio < 1 -> (taps < 0)%Z ->
   design_prototype_filter taps cutoff_ratio beta = Raise IndexError)
  /\
  ((exists h, design_prototype_filter taps cutoff_ratio beta = Ok h)
   <-> (0 <= taps)%Z /\ (taps mod 2 = 0)%Z /\ 0 < cutoff_ratio < 1).
Proof.
  split; [|split; [|split]].
  - intros Hodd. unfold design_prototype_filter.
    destruct (Z.eqb_spec (taps mod 2) 0); [contradiction|reflexivity].
  - intros Heven Hc. unfold design_prototype_filter.
    rewrite Heven, Z.eqb_refl, py_assert_true, bind_Ok.
    assert (Hb : Rlt_b 0 cutoff_ratio && Rlt_b cutoff_ratio 1 = false).
    { destruct (Rlt_dec 0 cutoff_ratio) as [H0|H0].
      - destruct (Rlt_dec cutoff_ratio 1) as [H1|H1]; [elim Hc; split; assumption|].
        rewrite (Rlt_b_false cutoff_ratio 1) by lra. apply andb_false_r.
      - rewrite (Rlt_b_false 0 cutoff_ratio) by lra. reflexivity. }
    rewrite Hb. reflexivity.
  - intros Heven [Hc0 Hc1] Hneg. unfold design_prototype_filter.
    rewrite Heven, Z.eqb_refl, (Rlt_b_true 0 cutoff_ratio), (Rlt_b_true cutoff_ratio 1)
      by assumption.
    cbn [andb]. rewrite py_assert_true, !bind_Ok.
    unfold setitem. rewrite length_map, length_arange.
    replace (Z.to_nat (taps + 1)) with O by lia. cbn [Z.of_nat Z.opp].
    assert (Hd : (taps / 2 < 0)%Z) by (apply Z.div_lt_upper_bound; lia).
    destruct (Z.leb_spec 0 (taps / 2)); [lia|]. cbn [andb].
    destruct (Z.ltb_spec (taps / 2) 0); [|lia]. rewrite andb_false_r || cbn [andb].
    reflexivity.
  - split.
    + intros [h Hh]. apply design_prototype_filter_Ok_inv in Hh.
      destruct Hh as (t & -> & Ht & Hc).
      destruct (even_half t Ht) as (m & _ & _ & _ & Hmod & _).
      repeat split; try lia; lra.
    + intros (Hnn & Heven & Hc).
      destruct (Z_even_nonneg_nat taps Hnn Heven) as (t & -> & Ht).
      eexists. apply design_prototype_filter_samples; assumption.
Qed.

Lemma design_prototype_filter_outcomes_witness :
  design_prototype_filter 61 2 9
  = Raise (AssertionError (Some "The number of taps mush be even number."%string))
  /\ design_prototype_filter 62 2 9
     = Raise (AssertionError (Some "Cutoff ratio must be > 0.0 and < 1.0."%string))
  /\ design_prototype_filter (-4) 0.15 9 = Raise IndexError
  /\ (exists h, design_prototype_filter 62 0.15 9 = Ok h).
Proof.
  split; [|split; [|split]].
  - apply (design_prototype_filter_outcomes 61 2 9). discriminate.
  - apply (design_prototype_filter_outcomes 62 2 9); [reflexivity|lra].
  - apply (design_prototype_filter_outcomes (-4) 0.15 9); [reflexivity|lra|lia].
  - apply (design_prototype_filter_outcomes 62 0.15 9).
    split; [lia|]. split; [reflexivity|lra].
Defined.

(** ** Further properties of the filterbank *)

Lemma TFPQMF_init_negative_subbands (config : Config) (h : list npfloat) :
  design_prototype_filter (taps config) (cutoff_ratio config) (beta config) = Ok h ->
  (subbands config < 0)%Z ->
  TFPQMF_init config = Raise ValueError.
Proof.
  intros Hd Hs. unfold TFPQMF_init. rewrite Hd, bind_Ok.
  unfold filter_coefficients, np_zeros2.
  destruct (Z.ltb_spec (subbands config) 0); [reflexivity|lia].
Qed.

Lemma TFPQMF_init_Ok_iff (config : Config) :
  (exists p, TFPQMF_init config = Ok p)
  <-> (0 <= taps config)%Z /\ (taps config mod 2 = 0)%Z /\
      0 < cutoff_ratio config < 1 /\ (0 <= subbands config)%Z.
Proof.
  split.
  - intros [p Hp]. apply TFPQMF_init_Ok_inv in Hp.
    destruct Hp as (s & t & Hs & Ht & Heven & Hc & _).
    destruct (even_half t Heven) as (m & _ & _ & _ & Hmod & _).
    rewrite Hs, Ht. repeat split; try lia; lra.
  - intros (Hnn & Heven & Hc & Hs).
    destruct (Z_even_nonneg_nat _ Hnn Heven) as (t & Ht & Hte).
    assert (Hs' : subbands config = Z.of_nat (Z.to_nat (subbands config))) by lia.
    destruct (TFPQMF_init_coefficients config _ t Hs' Ht Hte Hc)
      as (_ & _ & _ & p & _ & _ & Hinit & _).
    now exists p.
Qed.

(** X4. The outcomes of [TFPQMF.__init__]: it returns a filterbank
    exactly when taps is even and non-negative, the cutoff ratio is
    strictly between 0 and 1 and subbands is non-negative; an exception of
    [design_prototype_filter] is passed on unchanged; with a valid
    prototype filter, a negative subbands raises ValueError ([np.zeros]). *)
Theorem TFPQMF_init_outcomes (config : Config) :
  ((exists p, TFPQMF_init config = Ok p)
   <-> (0 <= taps config)%Z /\ (taps config mod 2 = 0)%Z /\
       0 < cutoff_ratio config < 1 /\ (0 <= subbands config)%Z)
  /\
  (forall e,
     design_prototype_filter (taps config) (cutoff_ratio config) (beta config) = Raise e ->
     TFPQMF_init config = Raise e)
  /\
  ((0 <= taps config)%Z -> (taps config mod 2 = 0)%Z -> 0 < cutoff_ratio config < 1 ->
   (subbands config < 0)%Z ->
   TFPQMF_init config = Raise ValueError).
Proof.
  split; [apply TFPQMF_init_Ok_iff|split].
  - intros e He. unfold TFPQMF_init. rewrite He. reflexivity.
  - intros Hnn Heven Hc Hs.
    destruct (Z_even_nonneg_nat _ Hnn Heven) as (t & Ht & Hte).
    apply (TFPQMF_init_negative_subbands config
             (map (prototype_sample t (cutoff_ratio config) (beta config))
                  (seq 0 (S t)))); [|exact Hs].
    rewrite Ht. now apply design_prototype_filter_samples.
Qed.

Lemma TFPQMF_init_outcomes_witness :
  (exists p, TFPQMF_init example_config = Ok p)
  /\ TFPQMF_init (with_subbands example_config (-1)) = Raise ValueError.
Proof.
  split.
  - apply (TFPQMF_init_outcomes example_config).
    cbn. split; [lia|]. split; [reflexivity|]. split; [lra|lia].
  - apply (TFPQMF_init_outcomes (with_subbands example_config (-1)));
      cbn; [lia|reflexivity|lra|lia].
Defined.

(** X5. Every filterbank that [TFPQMF.__init__] returns keeps subbands
    and taps, has an analysis filter of shape (taps+1, 1, subbands), a
    synthesis filter of shape (taps+1, subbands, 1) and a routing filter
    of shape (subbands, subbands, subbands) that is 1 at [0, k, k] and 0
    everywhere else. *)
Theorem TFPQMF_init_shapes_and_routing (config : Config) (p : TFPQMF) :
  TFPQMF_init config = Ok p ->
  let s := Z.to_nat (subbands config) in
  let t := Z.to_nat (taps config) in
  pqmf_subbands p = subbands config /\
  pqmf_taps p = taps config /\
  shape3 (analysis_filter p) = ((t + 1)%nat, 1%nat, s) /\
  shape3 (synthesis_filter p) = ((t + 1)%nat, s, 1%nat) /\
  shape3 (updown_filter p) = (s, s, s) /\
  (forall i j k, (i < s)%nat -> (j < s)%nat -> (k < s)%nat ->
     get3 (updown_filter p) i j k
     = if ((i =? 0) && (j =? k))%nat then Fin 1 else Fin 0).
Proof.
  intros Hinit. cbv zeta.
  pose proof (TFPQMF_init_Ok_inv config p Hinit)
    as (s & t & Hs & Ht & Heven & Hc & _).
  destruct (TFPQMF_init_coefficients config s t Hs Ht Heven Hc)
    as (_ & _ & _ & p' & _ & _ & Hinit' & H1 & H2 & H3 & H4 & H5 & Hent & _).
  rewrite Hinit in Hinit'. injection Hinit' as <-.
  rewrite Hs, Ht, !Nat2Z.id. replace (t + 1)%nat with (S t) by lia.
  repeat (split; [assumption|]).
  intros i j k Hi Hj Hk. rewrite Hent.
  destruct (Nat.ltb_spec j s); [|lia]. now rewrite andb_true_r.
Qed.

Lemma TFPQMF_init_shapes_and_routing_witness :
  exists p,
    TFPQMF_init example_config = Ok p /\
    shape3 (analysis_filter p) = (63, 1, 4)%nat /\
    shape3 (updown_filter p) = (4, 4, 4)%nat.
Proof.
  destruct TFPQMF_init_example as [p Hp]. exists p. split; [exact Hp|].
  destruct (TFPQMF_init_shapes_and_routing example_config p Hp)
    as (_ & _ & Ha & _ & Hu & _).
  split; [exact Ha|exact Hu].
Defined.

(** X7. When [i0(beta)] does not overflow, every coefficient of
    [h_analysis] and of [h_synthesis] is a real number, in absolute value
    at most twice the absolute value of the prototype coefficient of the
    same tap, and the stored filters hold finite values. *)
Theorem TFPQMF_init_coefficients_bounded (config : Config) (p : TFPQMF) (k n : nat) :
  TFPQMF_init config = Ok p ->
  is_finite (i0 (beta config)) = true ->
  (Z.of_nat k < subbands config)%Z ->
  (Z.of_nat n <= taps config)%Z ->
  exists h_proto h_analysis h_synthesis h_n a s,
    design_prototype_filter (taps config) (cutoff_ratio config) (beta config)
    = Ok h_proto /\
    filter_coefficients h_proto (subbands config) (taps config)
    = Ok (h_analysis, h_synthesis) /\
    nth n h_proto NaN = Fin h_n /\
    get2 h_analysis k n = Fin a /\
    get2 h_synthesis k n = Fin s /\
    Rabs a <= 2 * Rabs h_n /\
    Rabs s <= 2 * Rabs h_n /\
    is_finite (get3 (analysis_filter p) n 0 k) = true /\
    is_finite (get3 (synthesis_filter p) n k 0) = true.
Proof.
  intros Hinit Hb Hk Hn.
  pose proof (TFPQMF_init_Ok_inv config p Hinit)
    as (s & t & Hs & Ht & Heven & Hc & _).
  destruct (TFPQMF_init_coefficients config s t Hs Ht Heven Hc)
    as (h & ha & hs & p' & Hd & Hf & Hinit' & _ & _ & _ & _ & _ & _ & Hcoef).
  rewrite Hinit in Hinit'. injection Hinit' as Hpp. subst p'.
  destruct (Hcoef k n ltac:(lia) ltac:(lia)) as (Hh & Ha & Hsy & Hfa & Hfs).
  rewrite prototype_sample_finite in Hh by exact Hb.
  rewrite Hh in Ha, Hsy. cbn [npmul] in Ha, Hsy.
  exists h, ha, hs. eexists. eexists. eexists.
  split; [exact Hd|]. split; [exact Hf|]. split; [exact Hh|].
  split; [exact Ha|]. split; [exact Hsy|].
  assert (Hbound : forall x y, Rabs (2 * x * cos y) <= 2 * Rabs x).
  { intros x y. rewrite !Rabs_mult, (Rabs_pos_eq 2) by lra.
    pose proof (COS_bound y) as [Hl Hu]. pose proof (Rabs_pos x).
    assert (Rabs (cos y) <= 1) by (apply Rabs_le; lra). nra. }
  split; [apply Hbound|]. split; [apply Hbound|].
  rewrite Hfa, Hfs, Ha, Hsy. split; reflexivity.
Qed.

Lemma TFPQMF_init_coefficients_bounded_witness :
  exists p h_proto h_analysis h_synthesis h_n a s,
    TFPQMF_init example_config = Ok p /\
    design_prototype_filter 62 0.15 9 = Ok h_proto /\
    filter_coefficients h_proto 4 62 = Ok (h_analysis, h_synthesis) /\
    nth 5 h_proto NaN = Fin h_n /\
    get2 h_analysis 3 5 = Fin a /\
    get2 h_synthesis 3 5 = Fin s /\
    Rabs a <= 2 * Rabs h_n /\
    Rabs s <= 2 * Rabs h_n /\
    is_finite (get3 (analysis_filter p) 5 0 3) = true /\
    is_finite (get3 (synthesis_filter p) 5 3 0) = true.
Proof.
  destruct TFPQMF_init_example as [p Hp]. exists p.
  destruct (TFPQMF_init_coefficients_bounded example_config p 3 5 Hp)
    as (h & ha & hs & hn & a & s & H); [exact i0_finite_9|cbn; lia|cbn; lia|].
  exists h, ha, hs, hn, a, s. split; [exact Hp|exact H].
Defined.

(** ** Further properties of [analysis] and [synthesis] *)

(** X9. Shapes round trip: with at least one sub-band, [analysis] after
    [synthesis] gives back the shape (batch, T, subbands), and
    [synthesis] after [analysis] gives (batch, T - T mod subbands, 1):
    the last T mod subbands samples are lost. *)
Theorem PQMF_shape_round_trips (config : Config) (p : TFPQMF) (batch T : nat) :
  TFPQMF_init config = Ok p ->
  (1 <= subbands config)%Z ->
  let s := Z.to_nat (subbands config) in
  (y <- synthesis p (batch, T, s) ;; analysis p y) = Ok (batch, T, s) /\
  (y <- analysis p (batch, T, 1%nat) ;; synthesis p y)
  = Ok (batch, (T - T mod s)%nat, 1%nat).
Proof.
  intros Hinit Hs. cbv zeta.
  pose proof (fun t => analysis_and_synthesis_shapes config p batch t Hinit Hs) as H.
  cbv zeta in H.
  set (s := Z.to_nat (subbands config)) in *.
  assert (Hs' : (1 <= s)%nat) by (unfold s; lia).
  split.
  - rewrite (proj2 (H T)), bind_Ok, (proj1 (H (T * s)%nat)).
    rewrite Nat.div_mul by lia. reflexivity.
  - rewrite (proj1 (H T)), bind_Ok, (proj2 (H (T / s)%nat)).
    do 3 f_equal. pose proof (Nat.div_mod_eq T s). lia.
Qed.

Lemma PQMF_shape_round_trips_witness :
  exists p,
    TFPQMF_init example_config = Ok p /\
    (y <- synthesis p (1, 25, 4)%nat ;; analysis p y) = Ok (1, 25, 4)%nat /\
    (y <- analysis p (1, 103, 1)%nat ;; synthesis p y) = Ok (1, 100, 1)%nat.
Proof.
  destruct TFPQMF_init_example as [p Hp]. exists p. split; [exact Hp|].
  destruct (PQMF_shape_round_trips example_config p 1 25 Hp) as [H1 _]; [cbn; lia|].
  destruct (PQMF_shape_round_trips example_config p 1 103 Hp) as [_ H2]; [cbn; lia|].
  split; [exact H1|exact H2].
Defined.

Lemma synthesis_rejects_channels (config : Config) (p : TFPQMF) (batch T channels : nat) :
  TFPQMF_init config = Ok p ->
  channels <> Z.to_nat (subbands config) ->
  exists e, synthesis p (batch, T, channels) = Raise e.
Proof.
  intros Hinit Hc.
  pose proof (TFPQMF_init_Ok_inv config p Hinit)
    as (s & tp & Hs & _ & _ & _ & Hps & _ & _ & _ & Hsu).
  rewrite Hs, Nat2Z.id in Hc.
  unfold synthesis, tf_conv1d_transpose. rewrite Hps, Hsu.
  destruct (Z.leb_spec (Z.of_nat s) 0); [eexists; reflexivity|].
  destruct (Nat.eqb_spec channels s); [contradiction|]. eexists. reflexivity.
Qed.

(** X10. Inputs the filterbank rejects: [analysis] raises on an input
    with other than one channel; [synthesis] fails on an input whose
    channel count is not subbands; and a filterbank built with
    subbands = 0 fails on every input of both. *)
Theorem PQMF_rejected_inputs (config : Config) (p : TFPQMF) (batch T channels : nat) :
  TFPQMF_init config = Ok p ->
  (channels <> 1%nat -> analysis p (batch, T, channels) = Raise ValueError)
  /\
  (channels <> Z.to_nat (subbands config) ->
   exists e, synthesis p (batch, T, channels) = Raise e)
  /\
  (subbands config = 0%Z ->
   (exists e, analysis p (batch, T, channels) = Raise e) /\
   (exists e, synthesis p (batch, T, channels) = Raise e)).
Proof.
  intros Hinit.
  pose proof (TFPQMF_init_Ok_inv config p Hinit)
    as (s & tp & Hs & Ht & Heven & _ & Hps & Hpt & Hsa & Hss & Hsu).
  destruct (even_half tp Heven) as (m & Htm & _ & Hdiv & _).
  split; [|split].
  - intros Hc. unfold analysis.
    destruct (Nat.eqb_spec channels 1); [contradiction|reflexivity].
  - now apply synthesis_rejects_channels.
  - intros Hz. assert (s = 0%nat) by lia. subst s. split.
    + unfold analysis.
      destruct (Nat.eqb_spec channels 1) as [->|]; [|eexists; reflexivity].
      cbn [negb]. rewrite Hpt, Hsa, Hsu, Hps, Hdiv.
      rewrite tf_pad_time_ok, bind_Ok.
      rewrite tf_conv1d_valid_stride1, bind_Ok by lia.
      unfold tf_conv1d_valid. cbn [Z.of_nat Z.leb Z.compare]. eexists. reflexivity.
    + unfold synthesis, tf_conv1d_transpose. rewrite Hps, Hsu.
      cbn [Z.of_nat Z.leb Z.compare]. eexists. reflexivity.
Qed.

Lemma PQMF_rejected_inputs_witness :
  exists p,
    TFPQMF_init example_config = Ok p /\
    analysis p (1, 100, 2)%nat = Raise ValueError /\
    (exists e, synthesis p (1, 25, 3)%nat = Raise e).
Proof.
  destruct TFPQMF_init_example as [p Hp]. exists p. split; [exact Hp|].
  destruct (PQMF_rejected_inputs example_config p 1 100 2 Hp) as (Ha & _ & _).
  destruct (PQMF_rejected_inputs example_config p 1 25 3 Hp) as (_ & Hsy & _).
  split; [apply Ha; discriminate|apply Hsy; cbn; lia].
Defined.

(** ** Further properties of the generator *)

Lemma length_upsample_stage (config : Config) (i scale : Z) :
  length (upsample_stage config i scale) = (2 + Z.to_nat (stacks config))%nat.
Proof.
  unfold upsample_stage. rewrite length_app, length_map, length_arange. reflexivity.
Qed.

Lemma length_upsample_stages (config : Config) (stages : list (Z * Z)) :
  length (flat_map (fun '(i, upsample_scale) => upsample_stage config i upsample_scale)
                   stages)
  = (length stages * (2 + Z.to_nat (stacks config)))%nat.
Proof.
  induction stages as [|[i sc] stages IH]; [reflexivity|].
  cbn [flat_map length]. rewrite length_app, length_upsample_stage, IH. lia.
Qed.

Lemma length_enumerate {A} (l : list A) : length (enumerate l) = length l.
Proof.
  unfold enumerate. rewrite length_combine, length_arange, Nat2Z.id. lia.
Qed.

(** X11. The [Sequential] model has
    5 + len(upsample_scales) * (2 + stacks) layers, and one more when the
    final tanh activation is configured (a negative stacks counts as 0). *)
Theorem generator_layers_count (config : Config) :
  length (generator_layers config)
  = (5 + length (upsample_scales config) * (2 + Z.to_nat (stacks config))
     + (if use_final_nolinear_activation config then 1 else 0))%nat.
Proof.
  unfold generator_layers.
  rewrite !length_app, length_upsample_stages, length_enumerate.
  destruct (use_final_nolinear_activation config); cbn [length]; lia.
Qed.

Lemma conv_transpose_layers_app (l1 l2 : list layer) :
  conv_transpose_layers (l1 ++ l2) = conv_transpose_layers l1 ++ conv_transpose_layers l2.
Proof. apply flat_map_app. Qed.

Lemma conv_transpose_layers_residual (f : Z -> layer) (js : list Z) :
  (forall j, exists a b c d e g h i, f j = TFResidualStack a b c d e g h i) ->
  conv_transpose_layers (map f js) = [].
Proof.
  intros Hf. induction js as [|j js IH]; [reflexivity|].
  cbn [map]. change (f j :: map f js) with ([f j] ++ map f js).
  rewrite conv_transpose_layers_app, IH.
  destruct (Hf j) as (a & b & c & d & e & g & h & i & ->). reflexivity.
Qed.

Lemma conv_transpose_layers_stages (config : Config) (stages : list (Z * Z)) :
  conv_transpose_layers
    (flat_map (fun '(i, upsample_scale) => upsample_stage config i upsample_scale) stages)
  = map (fun '(i, upsample_scale) =>
           ((filters config / 2 ^ (i + 1))%Z, (upsample_scale * 2)%Z, upsample_scale))
        stages.
Proof.
  induction stages as [|[i sc] stages IH]; [reflexivity|].
  cbn [flat_map map]. rewrite conv_transpose_layers_app, IH. f_equal.
  unfold upsample_stage. rewrite conv_transpose_layers_app.
  rewrite conv_transpose_layers_residual by (intros j; repeat eexists).
  reflexivity.
Qed.

Lemma conv_transpose_layers_generator (config : Config) :
  conv_transpose_layers (generator_layers config)
  = map (fun '(i, upsample_scale) =>
           ((filters config / 2 ^ (i + 1))%Z, (upsample_scale * 2)%Z, upsample_scale))
        (enumerate (upsample_scales config)).
Proof.
  unfold generator_layers.
  rewrite !conv_transpose_layers_app, conv_transpose_layers_stages.
  destruct (use_final_nolinear_activation config); cbn; now rewrite app_nil_r.
Qed.

Lemma nth_enumerate (l : list Z) (i : nat) :
  (i < length l)%nat -> nth i (enumerate l) (0, 0)%Z = (Z.of_nat i, nth i l 0%Z).
Proof.
  intros Hi. unfold enumerate.
  rewrite combine_nth by (now rewrite length_arange, Nat2Z.id).
  f_equal. rewrite arange_of_nat.
  change 0%Z with (Z.of_nat 0) at 1. rewrite map_nth. now rewrite seq_nth.
Qed.

Lemma halving_is_exact (f : Z) (len i : nat) :
  (f mod 2 ^ Z.of_nat len = 0)%Z -> (i < len)%nat ->
  (2 * (f / 2 ^ (Z.of_nat i + 1)) = f / 2 ^ Z.of_nat i)%Z.
Proof.
  intros Hmod Hi.
  assert (Hp : (2 ^ Z.of_nat len = 2 ^ (Z.of_nat i + 1) * 2 ^ (Z.of_nat len - (Z.of_nat i + 1)))%Z).
  { rewrite <- Z.pow_add_r by lia. f_equal. lia. }
  apply Z.mod_divide in Hmod; [|apply Z.pow_nonzero; lia].
  destruct Hmod as [q Hq]. rewrite Hp in Hq.
  set (r := (q * 2 ^ (Z.of_nat len - (Z.of_nat i + 1)))%Z).
  assert (Hf : (f = r * 2 ^ (Z.of_nat i + 1))%Z) by (unfold r; lia).
  assert (H2i : (0 < 2 ^ Z.of_nat i)%Z) by (apply Z.pow_pos_nonneg; lia).
  rewrite Hf at 1. rewrite Z.div_mul by (apply Z.pow_nonzero; lia).
  rewrite Hf, Z.pow_add_r, Z.pow_1_r by lia.
  replace (r * (2 ^ Z.of_nat i * 2))%Z with (r * 2 * 2 ^ Z.of_nat i)%Z by lia.
  rewrite Z.div_mul by lia. lia.
Qed.

(** X12. In a constructed generator there is one transposed convolution
    per upsampling scale; the i-th has kernel size twice its stride, the
    stride is upsample_scales[i], and its output channel count is exactly
    half its input channel count filters / 2^i (the second assertion of
    the constructor makes every halving exact). *)
Theorem generator_channel_halving
    (config : Config) (g : MBMelGANGenerator) (i : nat) :
  MBMelGANGenerator_init config = Ok g ->
  (i < length (upsample_scales config))%nat ->
  let scale := nth i (upsample_scales config) 0%Z in
  let channels_in := (filters config / 2 ^ Z.of_nat i)%Z in
  exists channels_out,
    length (conv_transpose_layers (melgan g)) = length (upsample_scales config) /\
    nth i (conv_transpose_layers (melgan g)) (0, 0, 0)%Z
    = (channels_out, (scale * 2)%Z, scale) /\
    (2 * channels_out = channels_in)%Z.
Proof.
  intros Hinit Hi. cbv zeta.
  pose proof Hinit as Hinv. apply MBMelGANGenerator_init_Ok_inv in Hinv.
  destruct Hinv as [Hm _].
  assert (Hmod : (filters config mod 2 ^ Z.of_nat (length (upsample_scales config)) = 0)%Z).
  { unfold MBMelGANGenerator_init in Hinit.
    apply bind_Ok_inv in Hinit. destruct Hinit as ([] & _ & Hinit).
    apply bind_Ok_inv in Hinit. destruct Hinit as ([] & Hassert & _).
    unfold py_assert in Hassert.
    destruct (Z.eqb_spec (filters config mod 2 ^ Z.of_nat (length (upsample_scales config))) 0);
      [assumption|discriminate]. }
  exists (filters config / 2 ^ (Z.of_nat i + 1))%Z.
  rewrite Hm, conv_transpose_layers_generator, length_map, length_enumerate.
  split; [reflexivity|]. split.
  - set (f := fun '(i, upsample_scale) =>
                ((filters config / 2 ^ (i + 1))%Z, (upsample_scale * 2)%Z, upsample_scale)).
    rewrite (nth_indep _ (0, 0, 0)%Z (f (0, 0)%Z))
      by (now rewrite length_map, length_enumerate).
    rewrite map_nth, nth_enumerate by exact Hi. reflexivity.
  - now apply (halving_is_exact _ (length (upsample_scales config))).
Qed.

Lemma generator_channel_halving_witness :
  exists g channels_out,
    MBMelGANGenerator_init example_config = Ok g /\
    length (conv_transpose_layers (melgan g)) = 3%nat /\
    nth 1 (conv_transpose_layers (melgan g)) (0, 0, 0)%Z = (channels_out, 16, 8)%Z /\
    (2 * channels_out = 256)%Z.
Proof.
  destruct MBMelGANGenerator_init_example as [g Hg]. exists g.
  destruct (generator_channel_halving example_config g 1 Hg) as (c & H); [cbn; lia|].
  exists c. split; [exact Hg|exact H].
Defined.

Lemma MBMelGANGenerator_init_Ok_iff (config : Config) :
  (exists g, MBMelGANGenerator_init config = Ok g)
  <-> (np_prod (upsample_scales config) <= filters config)%Z /\
      (filters config mod 2 ^ Z.of_nat (length (upsample_scales config)) = 0)%Z /\
      (0 <= taps config)%Z /\ (taps config mod 2 = 0)%Z /\
      0 < cutoff_ratio config < 1 /\ (0 <= subbands config)%Z.
Proof.
  unfold MBMelGANGenerator_init. split.
  - intros [g Hg].
    apply bind_Ok_inv in Hg. destruct Hg as ([] & H1 & Hg).
    apply bind_Ok_inv in Hg. destruct Hg as ([] & H2 & Hg).
    apply bind_Ok_inv in Hg. destruct Hg as (p & Hp & _).
    unfold py_assert in H1, H2.
    destruct (Z.leb_spec (np_prod (upsample_scales config)) (filters config));
      [|discriminate].
    destruct (Z.eqb_spec (filters config mod 2 ^ Z.of_nat (length (upsample_scales config))) 0);
      [|discriminate].
    split; [assumption|]. split; [assumption|].
    apply TFPQMF_init_Ok_iff. now exists p.
  - intros (H1 & H2 & Hpq).
    apply TFPQMF_init_Ok_iff in Hpq. destruct Hpq as [p Hp].
    destruct (Z.leb_spec (np_prod (upsample_scales config)) (filters config)); [|lia].
    rewrite H2, Z.eqb_refl, !py_assert_true, !bind_Ok, Hp, bind_Ok.
    eexists. reflexivity.
Qed.

(** X14. [inference_tflite] on a batch of one returns what [call] and
    [inference] return, of shape
    (1, T * prod(upsample_scales) * subbands, 1); it rejects any other
    batch size, and both entry points reject mels that do not have 80
    channels. *)
Theorem inference_tflite_shape (config : Config) (g : MBMelGANGenerator) (batch T : nat) :
  MBMelGANGenerator_init config = Ok g ->
  Z.odd (kernel_size config) = true ->
  (0 < kernel_size config)%Z ->
  Forall (fun s => 0 < s)%Z (upsample_scales config) ->
  out_channels config = subbands config ->
  (1 <= subbands config)%Z ->
  inference_tflite g (1%nat, T, 80%nat)
  = Ok (1%nat,
        (T * Z.to_nat (product (upsample_scales config))
           * Z.to_nat (subbands config))%nat,
        1%nat)
  /\ inference_tflite g (1%nat, T, 80%nat) = call g (1%nat, T, 80%nat)
  /\ (batch <> 1%nat -> inference_tflite g (batch, T, 80%nat) = Raise ValueError)
  /\ (forall channels, channels <> 80%nat ->
        inference_tflite g (batch, T, channels) = Raise ValueError /\
        call g (batch, T, channels) = Raise ValueError).
Proof.
  intros Hinit Hodd Hpos Hscales Hout Hsub.
  split; [|split; [|split]].
  - change (inference_tflite g (1%nat, T, 80%nat)) with (inference g (1%nat, T, 80%nat)).
    now apply (inference_shape config).
  - reflexivity.
  - intros Hb. unfold inference_tflite.
    destruct (Nat.eqb_spec batch 1); [contradiction|reflexivity].
  - intros channels Hc. unfold inference_tflite, call, inference.
    destruct (Nat.eqb_spec channels 80); [contradiction|].
    rewrite andb_false_r. split; reflexivity.
Qed.

Lemma inference_tflite_shape_witness :
  exists g,
    MBMelGANGenerator_init example_config = Ok g /\
    inference_tflite g (1, 100, 80)%nat = Ok (1, 100 * 256 * 4, 1)%nat /\
    inference_tflite g (2, 100, 80)%nat = Raise ValueError.
Proof.
  destruct MBMelGANGenerator_init_example as [g Hg]. exists g. split; [exact Hg|].
  destruct (inference_tflite_shape example_config g 2 100 Hg) as (H1 & _ & H3 & _);
    try reflexivity; [repeat constructor|cbn; lia|].
  split; [exact H1|apply H3; discriminate].
Defined.

(** X15. [_build] on a constructed generator (odd kernel size, positive
    scales, positive out_channels, at least one sub-band): it succeeds when
    out_channels = subbands; when they differ, construction has succeeded
    all the same, but [_build] and every [inference] call fail in the
    synthesis filterbank. *)
Theorem build_outcomes (config : Config) (g : MBMelGANGenerator) :
  MBMelGANGenerator_init config = Ok g ->
  Z.odd (kernel_size config) = true ->
  (0 < kernel_size config)%Z ->
  Forall (fun s => 0 < s)%Z (upsample_scales config) ->
  (1 <= subbands config)%Z ->
  (0 < out_channels config)%Z ->
  (out_channels config = subbands config -> _build g = Ok tt)
  /\
  (out_channels config <> subbands config ->
   (exists e, _build g = Raise e) /\
   (forall batch T, exists e, inference g (batch, T, 80%nat) = Raise e)).
Proof.
  intros Hinit Hodd Hpos Hscales Hsub Hout.
  split.
  - intros Heq. unfold _build, call.
    rewrite (inference_shape config g 1 100 Hinit Hodd Hpos Hscales Heq Hsub).
    reflexivity.
  - intros Hne.
    pose proof Hinit as Hinv. apply MBMelGANGenerator_init_Ok_inv in Hinv.
    destruct Hinv as [Hm Hp].
    assert (Hfail : forall batch T, exists e, inference g (batch, T, 80%nat) = Raise e).
    { intros batch T. unfold inference. cbn [Nat.eqb negb]. rewrite Hm.
      rewrite call_generator_layers, bind_Ok by assumption.
      apply (synthesis_rejects_channels config); [exact Hp|lia]. }
    split; [|exact Hfail].
    unfold _build, call. destruct (Hfail 1%nat 100%nat) as [e He].
    exists e. now rewrite He.
Qed.

Lemma build_outcomes_witness :
  (exists g, MBMelGANGenerator_init example_config = Ok g /\ _build g = Ok tt)
  /\
  (exists g e, MBMelGANGenerator_init (with_subbands example_config 2) = Ok g /\
               _build g = Raise e).
Proof.
  split.
  - destruct MBMelGANGenerator_init_example as [g Hg]. exists g. split; [exact Hg|].
    apply (build_outcomes example_config g Hg);
      try reflexivity; [repeat constructor|cbn; lia].
  - destruct (proj2 (MBMelGANGenerator_init_Ok_iff
                       (with_subbands example_config 2))) as [g Hg].
    { cbn. repeat split; try lia; try reflexivity; lra. }
    destruct (build_outcomes (with_subbands example_config 2) g Hg) as [_ H];
      try reflexivity; [repeat constructor|cbn; lia|].
    destruct H as [[e He] _]; [cbn; lia|].
    exists g, e. split; [exact Hg|exact He].
Defined.

Lemma product_positive (l : list Z) :
  Forall (fun s => 0 < s)%Z l -> (0 < product l)%Z.
Proof.
  intros H. induction H as [|x l Hx _ IH]; cbn; [lia|]. fold (product l). lia.
Qed.

Lemma call_conv_block_even (b t c : nat) (k f : Z) (pt : string) (ub : bool) (seed : Z) :
  Z.even k = true -> (2 <= k)%Z -> (1 <= t)%nat ->
  call_sequential [TFReflectionPad1d ((k - 1) / 2)%Z pt; Conv1D f k ub seed] (b, t, c)
  = Ok (b, (t - 1)%nat, Z.to_nat f).
Proof.
  intros Hev Hk Ht.
  assert (HK : exists K : nat, k = (2 * Z.of_nat K + 2)%Z).
  { exists (Z.to_nat (k / 2 - 1)). pose proof (Zmod_even k) as Hm. rewrite Hev in Hm.
    pose proof (Z.div_mod k 2). lia. }
  destruct HK as [K ->].
  replace ((2 * Z.of_nat K + 2 - 1) / 2)%Z with (Z.of_nat K).
  2:{ replace (2 * Z.of_nat K + 2 - 1)%Z with (Z.of_nat K * 2 + 1)%Z by lia.
      rewrite Z.div_add_l by lia. rewrite (Z.div_small 1) by lia. lia. }
  cbn [call_sequential for_each call_layer].
  rewrite tf_pad_time_ok, bind_Ok.
  replace (Z.to_nat (2 * Z.of_nat K + 2)) with (2 * K + 2)%nat by lia.
  rewrite tf_conv1d_valid_stride1, bind_Ok by lia.
  do 3 f_equal. lia.
Qed.

Lemma call_generator_layers_even (config : Config) (b t c : nat) :
  Z.even (kernel_size config) = true ->
  (2 <= kernel_size config)%Z ->
  Forall (fun s => 0 < s)%Z (upsample_scales config) ->
  (2 <= t)%nat ->
  call_sequential (generator_layers config) (b, t, c)
  = Ok (b, ((t - 1) * Z.to_nat (product (upsample_scales config)) - 1)%nat,
        Z.to_nat (out_channels config)).
Proof.
  intros Hev Hk Hscales Ht. unfold generator_layers.
  rewrite call_sequential_app, call_conv_block_even, bind_Ok by (assumption || lia).
  destruct (call_upsample_stages config (enumerate (upsample_scales config))
              b (t - 1) (Z.to_nat (filters config))) as [c' Hc'].
  { now rewrite map_snd_enumerate. }
  rewrite map_snd_enumerate in Hc'.
  rewrite call_sequential_app, Hc', bind_Ok.
  rewrite call_sequential_app, call_sequential_activation.
  pose proof (product_positive _ Hscales) as Hp.
  rewrite call_conv_block_even, bind_Ok by (assumption || nia).
  destruct (use_final_nolinear_activation config); reflexivity.
Qed.

(** X16. With an even kernel size each of the two convolution blocks
    loses one frame: for T >= 2 the waveform has
    ((T - 1) * prod(upsample_scales) - 1) * subbands samples. *)
Theorem inference_even_kernel_size
    (config : Config) (g : MBMelGANGenerator) (batch T : nat) :
  MBMelGANGenerator_init config = Ok g ->
  Z.even (kernel_size config) = true ->
  (2 <= kernel_size config)%Z ->
  Forall (fun s => 0 < s)%Z (upsample_scales config) ->
  out_channels config = subbands config ->
  (1 <= subbands config)%Z ->
  (2 <= T)%nat ->
  inference g (batch, T, 80%nat)
  = Ok (batch,
        (((T - 1) * Z.to_nat (product (upsample_scales config)) - 1)
         * Z.to_nat (subbands config))%nat,
        1%nat).
Proof.
  intros Hinit Hev Hk Hscales Hout Hsub HT.
  apply MBMelGANGenerator_init_Ok_inv in Hinit. destruct Hinit as [Hm Hp].
  unfold inference. cbn [Nat.eqb negb]. rewrite Hm.
  rewrite call_generator_layers_even, bind_Ok by assumption.
  rewrite Hout.
  apply (analysis_and_synthesis_shapes config (pqmf g) batch _ Hp Hsub).
Qed.

Lemma inference_even_kernel_size_witness :
  exists g,
    MBMelGANGenerator_init (with_kernel_size example_config 8) = Ok g /\
    inference g (1, 100, 80)%nat = Ok (1, (99 * 256 - 1) * 4, 1)%nat.
Proof.
  destruct (proj2 (MBMelGANGenerator_init_Ok_iff (with_kernel_size example_config 8)))
    as [g Hg].
  { cbn. repeat split; try lia; try reflexivity; lra. }
  exists g. split; [exact Hg|].
  apply (inference_even_kernel_size (with_kernel_size example_config 8) g 1 100 Hg);
    try reflexivity; [cbn; lia|repeat constructor|cbn; lia|lia].
Defined.
